(** * Registration extrinsics of bittensor: a shallow embedding

    Source: [src/bittensor/extrinsics/registration.py].

    The three orchestrators of that module ([register_extrinsic],
    [burned_register_extrinsic], [run_faucet_extrinsic]) talk to three
    collaborators: the chain client ([subtensor]), the proof-of-work solver
    ([create_pow]) and the operator ([Confirm.ask], Ctrl-C).  None of the
    collaborators is part of the module, so they are modelled as a [World]:
    every call is answered by a function of the history of calls made so
    far.  The orchestrators themselves are translated statement by
    statement; loops that need not terminate are small-step machines driven
    by a step budget.  Console output and [time.sleep] have no influence on
    control flow and are left out. *)

From Stdlib Require Import ZArith List String Ascii Bool Lia DecimalString.
Import ListNotations.

Local Open Scope string_scope.
Local Open Scope list_scope.
Local Open Scope Z_scope.

(** ** Data *)

(** [POWSolution] of [bittensor.utils.registration]: only the fields the
    module reads (lines 423-425). *)
Record POWSolution : Type := mkPOW {
  block_number : Z;
  nonce : Z;
  seal : list Byte.byte
}.

(** One entry per collaborator call, with the answer that came back. *)
Inductive Event : Type :=
| EvSubnetExists (exists_ : bool)                       (* subtensor.subnet_exists *)
| EvGetNeuron (is_null : bool)                          (* get_neuron_for_pubkey_and_subnet(..).is_null *)
| EvConfirm (answer : bool)                             (* Confirm.ask *)
| EvGetBalance                                          (* subtensor.get_balance *)
| EvRecycle                                             (* subtensor.recycle *)
| EvCurrentBlock                                        (* subtensor.get_current_block *)
| EvCreatePow (pow_result : option POWSolution)         (* create_pow *)
| EvIsStale (stale : bool)                              (* pow_result.is_stale *)
| EvPowRegister (success : bool) (err_msg : option string)     (* subtensor.do_pow_register *)
| EvBurnedRegister (success : bool) (err_msg : option string)  (* subtensor.do_burned_register *)
| EvFaucet (is_success : bool)                          (* submit_extrinsic of the faucet call *)
| EvIsHotkeyRegistered (registered : bool)              (* subtensor.is_hotkey_registered *)
| EvKeyboardInterrupt.                                  (* Ctrl-C delivered during a call *)

(** Histories are kept newest event first. *)
Definition history : Type := list Event.

(** The collaborators.  Each answer may depend on everything that happened
    before the call. *)
Record World : Type := mkWorld {
  subnet_exists : history -> bool;
  neuron_is_null : history -> bool;
  confirm_ask : history -> bool;
  torch : bool;                          (* truthiness of the imported [torch] *)
  cuda_is_available : history -> bool;
  create_pow : history -> option POWSolution;
  is_stale : history -> POWSolution -> bool;
  do_pow_register : history -> POWSolution -> bool * option string;
  do_burned_register : history -> bool * option string;
  is_hotkey_registered : history -> bool;
  submit_faucet : history -> POWSolution -> bool;   (* response.is_success *)
  interrupt : history -> bool            (* does the next blocking call get Ctrl-C? *)
}.

(** ** Python operators used by the module *)

(** [needle in hay] on [str]. *)
Fixpoint str_in (needle hay : string) : bool :=
  String.prefix needle hay
  || match hay with
     | EmptyString => false
     | String _ rest => str_in needle rest
     end.

(** [x is not True] and [x is False] on a [bool]. *)
Definition is_not_True (x : bool) : bool := negb (Bool.eqb x true).
Definition is_False (x : bool) : bool := Bool.eqb x false.

(** [str(n)] on an [int], as interpolated by an f-string. *)
Definition str_of_int (n : Z) : string := NilZero.string_of_int (Z.to_int n).

(** ** Observations on histories *)

Definition is_solver_call (e : Event) : bool :=
  match e with EvCreatePow _ => true | _ => false end.

Definition is_submission (e : Event) : bool :=
  match e with
  | EvPowRegister _ _ | EvBurnedRegister _ _ | EvFaucet _ => true
  | _ => false
  end.

Definition is_faucet_success (e : Event) : bool :=
  match e with EvFaucet true => true | _ => false end.

Definition is_faucet_failure (e : Event) : bool :=
  match e with EvFaucet false => true | _ => false end.

Definition count (f : Event -> bool) (h : history) : nat :=
  List.length (List.filter f h).

Definition solver_calls : history -> nat := count is_solver_call.
Definition submissions : history -> nat := count is_submission.
Definition faucet_successes : history -> nat := count is_faucet_success.
Definition faucet_failures : history -> nat := count is_faucet_failure.

(** Staleness checks made on the current solution: those since the newest
    solver call. *)
Fixpoint checks_since_solve (h : history) : nat :=
  match h with
  | [] => O
  | EvCreatePow _ :: _ => O
  | EvIsStale _ :: older => S (checks_since_solve older)
  | _ :: older => checks_since_solve older
  end.

(** ** [register_extrinsic] (lines 46-226)

    The function has no handler for [KeyboardInterrupt]; Ctrl-C is not
    part of this machine. *)

Module Register.

Inductive PyExn : Type :=
| TypeError.        (* ["..." in None], line 180 *)

(** Control points of the function. *)
Inductive Ctl : Type :=
| Solve (attempts : Z)                               (* line 119, top of [while True] *)
| SubmitLoop (attempts : Z) (pow_result : POWSolution) (* line 169, inner [while] test *)
| Returned (result : bool)
| Raised (e : PyExn).

Record St : Type := mkSt {
  ctl : Ctl;
  hist : history      (* calls made by this invocation, newest first *)
}.

Section Machine.

Variable w : World.
Variable past : history.            (* what happened before this invocation *)
Variable prompt : bool.
Variable max_allowed_attempts : Z.
Variable cuda : bool.

(** Lines 113-118. *)
Definition after_prompt (h : history) : St :=
  if negb (torch w) then mkSt (Returned false) h
  else mkSt (Solve 1) h.

(** Lines 83-118: everything before the rolling registration loop. *)
Definition entry : St :=
  let e := subnet_exists w past in
  let h1 := [EvSubnetExists e] in
  if negb e then mkSt (Returned false) h1
  else
    let n := neuron_is_null w (h1 ++ past) in
    let h2 := EvGetNeuron n :: h1 in
    if negb n then mkSt (Returned true) h2
    else if prompt then
      let c := confirm_ask w (h2 ++ past) in
      let h3 := EvConfirm c :: h2 in
      if negb c then mkSt (Returned false) h3 else after_prompt h3
    else after_prompt h2.

(** Lines 215-226: attempt accounting. *)
Definition accounting (attempts : Z) (h : history) : St :=
  if attempts <? max_allowed_attempts then mkSt (Solve (attempts + 1)) h
  else mkSt (Returned false) h.

(** Lines 119-164: one pass from the top of the outer loop to either the
    inner loop or the attempt accounting. *)
Definition solve (attempts : Z) (h : history) : St :=
  if cuda && negb (cuda_is_available w (h ++ past)) then mkSt (Returned false) h
  else
    let pow_result := create_pow w (h ++ past) in
    let h1 := EvCreatePow pow_result :: h in
    match pow_result with
    | None =>
        let is_registered := is_hotkey_registered w (h1 ++ past) in
        let h2 := EvIsHotkeyRegistered is_registered :: h1 in
        if is_registered then mkSt (Returned true) h2
        else accounting attempts h2
    | Some p => mkSt (SubmitLoop attempts p) h1
    end.

(** Lines 169-213: one evaluation of the inner [while] test and, when the
    solution is still fresh, one pass through its body.  The body has no
    [break]: every path either returns or goes back to the test, and the
    [else] clause of the [while] (line 209) [continue]s the outer loop. *)
Definition submit (attempts : Z) (p : POWSolution) (h : history) : St :=
  let stale := is_stale w (h ++ past) p in
  let h1 := EvIsStale stale :: h in
  if stale then mkSt (Solve attempts) h1
  else
    let '(success, err_msg) := do_pow_register w (h1 ++ past) p in
    let h2 := EvPowRegister success err_msg :: h1 in
    if is_not_True success || is_False success then
      match err_msg with
      | None => mkSt (Raised TypeError) h2
      | Some m =>
          if str_in "key is already registered" m then mkSt (Returned true) h2
          else mkSt (SubmitLoop attempts p) h2
      end
    else
      let is_registered := is_hotkey_registered w (h2 ++ past) in
      let h3 := EvIsHotkeyRegistered is_registered :: h2 in
      if is_registered then mkSt (Returned true) h3
      else mkSt (SubmitLoop attempts p) h3.

Definition step (s : St) : St :=
  match ctl s with
  | Solve attempts => solve attempts (hist s)
  | SubmitLoop attempts p => submit attempts p (hist s)
  | Returned _ | Raised _ => s
  end.

Fixpoint run (fuel : nat) (s : St) : St :=
  match fuel with
  | O => s
  | S fuel' => run fuel' (step s)
  end.

(** The function, observed after [fuel] loop steps. *)
Definition register_extrinsic (fuel : nat) : St := run fuel entry.

Definition running (s : St) : bool :=
  match ctl s with
  | Solve _ | SubmitLoop _ _ => true
  | Returned _ | Raised _ => false
  end.

End Machine.

End Register.

(** ** [burned_register_extrinsic] (lines 229-326) *)

Module Burned.

Record Outcome : Type := mkOut {
  result : bool;
  hist : history     (* calls made by this invocation, newest first *)
}.

Section Call.

Variable w : World.
Variable past : history.
Variable prompt : bool.

(** Lines 286-326. *)
Definition recycle_and_check (h : history) : Outcome :=
  let '(success, err_msg) := do_burned_register w (h ++ past) in
  let h1 := EvBurnedRegister success err_msg :: h in
  if is_not_True success || is_False success then mkOut false h1
  else
    let h2 := EvGetBalance :: EvCurrentBlock :: h1 in
    let is_registered := is_hotkey_registered w (h2 ++ past) in
    let h3 := EvIsHotkeyRegistered is_registered :: h2 in
    if is_registered then mkOut true h3 else mkOut false h3.

Definition burned_register_extrinsic : Outcome :=
  let e := subnet_exists w past in
  let h1 := [EvSubnetExists e] in
  if negb e then mkOut false h1
  else
    let n := neuron_is_null w (h1 ++ past) in
    let h2 := EvRecycle :: EvGetBalance :: EvGetNeuron n :: h1 in
    if negb n then mkOut true h2
    else if prompt then
      let c := confirm_ask w (h2 ++ past) in
      let h3 := EvConfirm c :: h2 in
      if negb c then mkOut false h3 else recycle_and_check h3
    else recycle_and_check h2.

End Call.

End Burned.

(** ** [run_faucet_extrinsic] (lines 329-466) *)

Module Faucet.

(** Control points: the test of the inner [while] (line 389) with the
    current values of the three loop variables, or the returned pair. *)
Inductive Ctl : Type :=
| Loop (attempts successes : Z) (pow_result : option POWSolution)
| Returned (result : bool * string).

Record St : Type := mkSt {
  ctl : Ctl;
  hist : history
}.

Section Machine.

Variable w : World.
Variable past : history.
Variable prompt : bool.
Variable max_allowed_attempts : Z.
Variable cuda : bool.

(** A blocking call made inside the [try] block.  Ctrl-C during the call
    raises [KeyboardInterrupt], which the handler of line 459 turns into
    the pair [(True, "Done")]. *)
Definition interruptible {A : Type} (h : history) (call : history -> A)
    (ev : A -> Event) (k : A -> history -> St) : St :=
  if interrupt w (h ++ past) then mkSt (Returned (true, "Done")) (EvKeyboardInterrupt :: h)
  else let a := call (h ++ past) in k a (ev a :: h).

Definition max_attempts_msg : string :=
  String.append "Max attempts reached: " (str_of_int max_allowed_attempts).

Definition max_successes_msg : string :=
  String.append "Max successes reached: " (str_of_int 3).

(** Lines 364-385. *)
Definition after_prompt (h : history) : St :=
  if negb (torch w) then mkSt (Returned (false, "Requires torch")) h
  else mkSt (Loop 1 1 None) (EvGetBalance :: h).

Definition entry : St :=
  if prompt then
    let c := confirm_ask w past in
    let h1 := [EvConfirm c] in
    if negb c then mkSt (Returned (false, "")) h1 else after_prompt h1
  else after_prompt [].

(** Lines 390-418: body of the inner [while]. *)
Definition solve (attempts successes : Z) (h : history) : St :=
  if cuda && negb (cuda_is_available w (h ++ past))
  then mkSt (Returned (false, "CUDA is not available.")) h
  else interruptible h (create_pow w) EvCreatePow
         (fun pow_result h1 => mkSt (Loop attempts successes pow_result) h1).

(** Lines 419-457: submission and the two counters.  Leaving this block
    normally starts the next round of [while True], which resets
    [pow_result] to [None] (line 388). *)
Definition submit (attempts successes : Z) (p : POWSolution) (h : history) : St :=
  interruptible h (fun h' => submit_faucet w h' p) EvFaucet
    (fun is_success h1 =>
       if negb is_success then
         if attempts =? max_allowed_attempts
         then mkSt (Returned (false, max_attempts_msg)) h1      (* MaxAttemptsException *)
         else mkSt (Loop (attempts + 1) successes None) h1
       else
         interruptible h1 (fun _ => tt) (fun _ => EvGetBalance)
           (fun _ h2 =>
              if successes =? 3
              then mkSt (Returned (true, max_successes_msg)) h2 (* MaxSuccessException *)
              else mkSt (Loop attempts (successes + 1) None) h2)).

Definition step (s : St) : St :=
  match ctl s with
  | Loop attempts successes None => solve attempts successes (hist s)
  | Loop attempts successes (Some p) =>
      interruptible (hist s) (fun h' => is_stale w h' p) EvIsStale
        (fun stale h1 =>
           if stale then solve attempts successes h1
           else submit attempts successes p h1)
  | Returned _ => s
  end.

Fixpoint run (fuel : nat) (s : St) : St :=
  match fuel with
  | O => s
  | S fuel' => run fuel' (step s)
  end.

Definition run_faucet_extrinsic (fuel : nat) : St := run fuel entry.

End Machine.

End Faucet.

(** ** Concrete worlds *)

Module Scenarios.

Definition pow0 : POWSolution := mkPOW 100 7 [].

(** A world in which the subnet exists, the operator confirms, [torch] and
    CUDA are present and nobody presses Ctrl-C; the remaining answers are
    given by the arguments. *)
Definition world_of
    (null : history -> bool)
    (solver : history -> option POWSolution)
    (stale : history -> POWSolution -> bool)
    (pow_register : history -> POWSolution -> bool * option string)
    (burned_register : history -> bool * option string)
    (registered : history -> bool)
    (faucet : history -> POWSolution -> bool) : World :=
  {| subnet_exists := fun _ => true;
     neuron_is_null := null;
     confirm_ask := fun _ => true;
     torch := true;
     cuda_is_available := fun _ => true;
     create_pow := solver;
     is_stale := stale;
     do_pow_register := pow_register;
     do_burned_register := burned_register;
     is_hotkey_registered := registered;
     submit_faucet := faucet;
     interrupt := fun _ => false |}.

(** A solution is fresh until it has been submitted once. *)
Definition stale_after_submission (h : history) (_ : POWSolution) : bool :=
  match h with
  | EvPowRegister _ _ :: _ => true
  | _ => false
  end.

(** A solution is fresh at its first staleness check only. *)
Definition stale_after_one_check (h : history) (_ : POWSolution) : bool :=
  (1 <=? checks_since_solve h)%nat.

Definition never_stale (_ : history) (_ : POWSolution) : bool := false.

Definition is_accepted (e : Event) : bool :=
  match e with
  | EvPowRegister true _ | EvBurnedRegister true _ => true
  | _ => false
  end.

(** The solver always finds a solution and the chain rejects every
    submission with a generic error. *)
Definition rejecting : World :=
  world_of (fun _ => true) (fun _ => Some pow0) stale_after_submission
           (fun _ _ => (false, Some "generic error"))
           (fun _ => (false, Some "generic error"))
           (fun _ => false) (fun _ _ => false).

(** A ledger that registers the hotkey with the first accepted
    submission and remembers it. *)
Definition ledger : World :=
  world_of (fun h => negb (existsb is_accepted h)) (fun _ => Some pow0) never_stale
           (fun _ _ => (true, None)) (fun _ => (true, None))
           (fun h => existsb is_accepted h) (fun _ _ => true).

(** Submissions are accepted but the hotkey never shows up; solutions
    expire after one check. *)
Definition expiring : World :=
  world_of (fun _ => true) (fun _ => Some pow0) stale_after_one_check
           (fun _ _ => (true, None)) (fun _ => (true, None))
           (fun _ => false) (fun _ _ => true).

(** Somebody else registered the hotkey while the solver was running. *)
Definition raced : World :=
  world_of (fun _ => true) (fun _ => Some pow0) never_stale
           (fun _ _ => (false, Some "Error: key is already registered"))
           (fun _ => (false, Some "already registered"))
           (fun _ => true) (fun _ _ => true).

(** The solver never finds a solution. *)
Definition no_solution : World :=
  world_of (fun _ => true) (fun _ => None) never_stale
           (fun _ _ => (false, Some "generic error"))
           (fun _ => (false, Some "generic error"))
           (fun _ => false) (fun _ _ => false).

(** A rejected submission that carries no error message. *)
Definition silent_rejection : World :=
  world_of (fun _ => true) (fun _ => Some pow0) never_stale
           (fun _ _ => (false, None)) (fun _ => (false, None))
           (fun _ => false) (fun _ _ => false).

(** Faucet submissions: failure, success, failure, ... *)
Definition alternating : World :=
  world_of (fun _ => true) (fun _ => Some pow0) never_stale
           (fun _ _ => (false, None)) (fun _ => (false, None))
           (fun _ => false)
           (fun h _ => (faucet_successes h <? faucet_failures h)%nat).

End Scenarios.

(** ** Specification vocabulary for [register_extrinsic] *)

Module RegisterSpec.

Import Register.

(** The value of the local variable [attempts] while the loop runs. *)
Definition attempts_of (c : Ctl) : option Z :=
  match c with
  | Solve a | SubmitLoop a _ => Some a
  | Returned _ | Raised _ => None
  end.

(** A rejected submission whose message says the key is registered. *)
Definition is_already_registered_rejection (e : Event) : bool :=
  match e with
  | EvPowRegister false (Some m) => str_in "key is already registered" m
  | _ => false
  end.

(** Where a history stands with respect to its newest accepted
    submission (one whose success flag is set). *)
Inductive Tail : Type :=
| AfterAccepted                  (* the submission is the newest event *)
| AfterProbe (registered : bool) (* a probe followed it and is the newest event *)
| Elsewhere.

Definition tail_kind (h : history) : Tail :=
  match h with
  | EvPowRegister true _ :: _ => AfterAccepted
  | EvIsHotkeyRegistered r :: EvPowRegister true _ :: _ => AfterProbe r
  | _ => Elsewhere
  end.

(** [e] may be the next event after [older]. *)
Definition may_follow (e : Event) (older : history) : Prop :=
  match tail_kind older with
  | AfterAccepted => exists r, e = EvIsHotkeyRegistered r
  | AfterProbe true => False
  | AfterProbe false => exists b, e = EvIsStale b
  | Elsewhere => True
  end.

Fixpoint probed (h : history) : Prop :=
  match h with
  | [] => True
  | e :: older => may_follow e older /\ probed older
  end.

Definition settled (c : Ctl) (h : history) : Prop :=
  match tail_kind h with
  | AfterAccepted => False
  | AfterProbe true => c = Returned true
  | AfterProbe false => exists a p, c = SubmitLoop a p
  | Elsewhere => True
  end.

End RegisterSpec.

(** ** Specification vocabulary for [run_faucet_extrinsic] *)

Module FaucetSpec.

(** Failed submissions since the newest successful one. *)
Fixpoint consecutive_failures (h : history) : nat :=
  match h with
  | [] => O
  | EvFaucet true :: _ => O
  | EvFaucet false :: older => S (consecutive_failures older)
  | _ :: older => consecutive_failures older
  end.

(** [successes - 1] successful submissions have been made while the loop
    runs; once the function has returned, a third success in the history
    means it returned because of it, or Ctrl-C arrived right after it. *)
Definition successes_invariant (w : World) (past : history) (s : Faucet.St) : Prop :=
  match Faucet.ctl s with
  | Faucet.Loop _ successes _ =>
      1 <= successes <= 3
      /\ Z.of_nat (faucet_successes (Faucet.hist s)) = successes - 1
  | Faucet.Returned r =>
      (faucet_successes (Faucet.hist s) <= 3)%nat
      /\ (faucet_successes (Faucet.hist s) = 3%nat ->
          r = (true, "Max successes reached: 3")
          \/ exists older, Faucet.hist s = EvKeyboardInterrupt :: older
                           /\ interrupt w (older ++ past) = true)
  end.

(** [attempts - 1] submissions have failed while the loop runs; the
    function returns the max-attempts pair exactly when the number of
    failures reaches the ceiling. *)
Definition failures_invariant (max_allowed_attempts : Z) (s : Faucet.St) : Prop :=
  match Faucet.ctl s with
  | Faucet.Loop attempts _ _ =>
      1 <= attempts <= max_allowed_attempts
      /\ Z.of_nat (faucet_failures (Faucet.hist s)) = attempts - 1
  | Faucet.Returned r =>
      Z.of_nat (faucet_failures (Faucet.hist s)) <= max_allowed_attempts
      /\ (r = (false, Faucet.max_attempts_msg max_allowed_attempts)
          <-> Z.of_nat (faucet_failures (Faucet.hist s)) = max_allowed_attempts)
  end.

End FaucetSpec.

(** ** [swap_hotkey_extrinsic] (lines 469-527)

    The function talks to the operator and to [subtensor.do_swap_hotkey]
    only, so it gets a history and a collaborator record of its own. *)

Module Swap.

Inductive SwapEvent : Type :=
| EvSwapConfirm (answer : bool)                              (* Confirm.ask *)
| EvSwapHotkey (success : bool) (err_msg : option string).   (* subtensor.do_swap_hotkey *)

Record Chain : Type := mkChain {
  swap_confirm_ask : list SwapEvent -> bool;
  do_swap_hotkey : list SwapEvent -> bool * option string
}.

Record Outcome : Type := mkOut {
  result : bool;
  hist : list SwapEvent    (* calls made by this invocation, newest first *)
}.

Section Call.

Variable c : Chain.
Variable past : list SwapEvent.
Variable prompt : bool.

(** Lines 508-527. *)
Definition swap (h : list SwapEvent) : Outcome :=
  let '(success, err_msg) := do_swap_hotkey c (h ++ past) in
  let h1 := EvSwapHotkey success err_msg :: h in
  if is_not_True success || is_False success then mkOut false h1
  else mkOut true h1.

Definition swap_hotkey_extrinsic : Outcome :=
  if prompt then
    let a := swap_confirm_ask c past in
    let h1 := [EvSwapConfirm a] in
    if negb a then mkOut false h1 else swap h1
  else swap [].

Definition swap_submissions (h : list SwapEvent) : nat :=
  List.length
    (List.filter (fun e => match e with EvSwapHotkey _ _ => true | _ => false end) h).

End Call.

End Swap.

(** ** Further vocabulary on histories *)

Module HistorySpec.

Definition is_failed_solve (e : Event) : bool :=
  match e with EvCreatePow None => true | _ => false end.

(** Solver calls that reported no solution. *)
Definition failed_solves : history -> nat := count is_failed_solve.

Definition is_confirming_probe (e : Event) : bool :=
  match e with EvIsHotkeyRegistered true => true | _ => false end.

Definition is_silent_rejection (e : Event) : bool :=
  match e with EvPowRegister false None => true | _ => false end.

Definition is_interrupt (e : Event) : bool :=
  match e with EvKeyboardInterrupt => true | _ => false end.

Definition is_balance_read (e : Event) : bool :=
  match e with EvGetBalance => true | _ => false end.

(** The newest event shows that the hotkey is registered. *)
Definition registration_evidence (h : history) : Prop :=
  match h with
  | EvGetNeuron false :: _ => True
  | EvIsHotkeyRegistered true :: _ => True
  | EvPowRegister false (Some m) :: _ => str_in "key is already registered" m = true
  | _ => False
  end.

(** [e] is a submission of a proof-of-work solution. *)
Definition is_pow_submission (e : Event) : bool :=
  match e with
  | EvPowRegister _ _ | EvFaucet _ => true
  | _ => false
  end.

(** Every submission of a solution comes right after a staleness check
    that found the solution fresh. *)
Fixpoint checked_before_submit (h : history) : Prop :=
  match h with
  | [] => True
  | e :: older =>
      (is_pow_submission e = true -> exists older', older = EvIsStale false :: older')
      /\ checked_before_submit older
  end.

End HistorySpec.

(** ** More concrete worlds *)

Module MoreScenarios.

Import Scenarios.

(** The subnet does not exist. *)
Definition no_subnet : World :=
  {| subnet_exists := fun _ => false;
     neuron_is_null := fun _ => true;
     confirm_ask := fun _ => true;
     torch := true;
     cuda_is_available := fun _ => true;
     create_pow := fun _ => Some pow0;
     is_stale := never_stale;
     do_pow_register := fun _ _ => (true, None);
     do_burned_register := fun _ => (true, None);
     is_hotkey_registered := fun _ => true;
     submit_faucet := fun _ _ => true;
     interrupt := fun _ => false |}.

(** The operator declines every prompt. *)
Definition declining : World :=
  {| subnet_exists := fun _ => true;
     neuron_is_null := fun _ => true;
     confirm_ask := fun _ => false;
     torch := true;
     cuda_is_available := fun _ => true;
     create_pow := fun _ => Some pow0;
     is_stale := never_stale;
     do_pow_register := fun _ _ => (true, None);
     do_burned_register := fun _ => (true, None);
     is_hotkey_registered := fun _ => true;
     submit_faucet := fun _ _ => true;
     interrupt := fun _ => false |}.

(** No CUDA device. *)
Definition no_cuda : World :=
  {| subnet_exists := fun _ => true;
     neuron_is_null := fun _ => true;
     confirm_ask := fun _ => true;
     torch := true;
     cuda_is_available := fun _ => false;
     create_pow := fun _ => Some pow0;
     is_stale := never_stale;
     do_pow_register := fun _ _ => (true, None);
     do_burned_register := fun _ => (true, None);
     is_hotkey_registered := fun _ => true;
     submit_faucet := fun _ _ => true;
     interrupt := fun _ => false |}.

(** The solver finds nothing twice, then the hotkey shows up on the
    chain (somebody else registered it). *)
Definition late_registration : World :=
  world_of (fun _ => true) (fun _ => None) never_stale
           (fun _ _ => (false, Some "generic error"))
           (fun _ => (false, Some "generic error"))
           (fun h => (2 <=? solver_calls h)%nat) (fun _ _ => false).

(** Ctrl-C arrives once the faucet has paid out once. *)
Definition interrupted : World :=
  {| subnet_exists := fun _ => true;
     neuron_is_null := fun _ => true;
     confirm_ask := fun _ => true;
     torch := true;
     cuda_is_available := fun _ => true;
     create_pow := fun _ => Some pow0;
     is_stale := never_stale;
     do_pow_register := fun _ _ => (true, None);
     do_burned_register := fun _ => (true, None);
     is_hotkey_registered := fun _ => true;
     submit_faucet := fun _ _ => true;
     interrupt := fun h => (1 <=? faucet_successes h)%nat |}.

(** A chain that accepts the swap, and one that refuses it without a
    message. *)
Definition swap_accepting : Swap.Chain :=
  Swap.mkChain (fun _ => true) (fun _ => (true, None)).

Definition swap_refusing : Swap.Chain :=
  Swap.mkChain (fun _ => true) (fun _ => (false, None)).

Definition swap_declining : Swap.Chain :=
  Swap.mkChain (fun _ => false) (fun _ => (true, None)).

End MoreScenarios.

(** * Properties of [register_extrinsic] *)

Module RegisterFacts.

Import Register RegisterSpec Scenarios.

Section Generic.

Variable w : World.
Variable past : history.
Variable prompt : bool.
Variable max_allowed_attempts : Z.
Variable cuda : bool.

Local Abbreviation step := (step w past max_allowed_attempts cuda).
Local Abbreviation run := (run w past max_allowed_attempts cuda).
Local Abbreviation entry := (entry w past prompt).
Local Abbreviation register_extrinsic :=
  (register_extrinsic w past prompt max_allowed_attempts cuda).

Lemma run_step (n : nat) (s : St) : run (S n) s = step (run n s).
Proof.
  revert s; induction n as [|n IH]; intro s; [reflexivity|].
  change (run (S (S n)) s) with (run (S n) (step s)).
  rewrite IH; reflexivity.
Qed.

Lemma run_plus (n m : nat) (s : St) : run (n + m) s = run m (run n s).
Proof.
  revert s; induction n as [|n IH]; intro s; [reflexivity|].
  simpl; apply IH.
Qed.

Lemma step_stopped (s : St) : running s = false -> step s = s.
Proof.
  unfold running, Register.step; destruct (ctl s); intro H; try discriminate; reflexivity.
Qed.

Lemma run_stopped (n : nat) (s : St) : running s = false -> run n s = s.
Proof.
  intro H; induction n as [|n IH]; [reflexivity|].
  simpl; rewrite (step_stopped s H); exact IH.
Qed.

(** Induction over the states the function goes through. *)
Lemma reachable_ind (P : St -> Prop) :
  P entry -> (forall s, P s -> P (step s)) -> forall fuel, P (register_extrinsic fuel).
Proof.
  intros H0 Hs fuel; unfold Register.register_extrinsic.
  induction fuel as [|n IH]; [exact H0|].
  rewrite run_step; apply Hs, IH.
Qed.

(** The only place where [attempts] changes or [False] is returned from
    inside the loop is the accounting block, and the only way there is a
    solver that reports no solution. *)
Lemma step_keeps_attempts (s : St) (a : Z) :
  (cuda = true -> forall h, cuda_is_available w h = true) ->
  (forall h, create_pow w h <> None) ->
  attempts_of (ctl s) = Some a ->
  attempts_of (ctl (step s)) = Some a
  \/ ctl (step s) = Returned true
  \/ ctl (step s) = Raised TypeError.
Proof.
  intros Hcuda Hpow Ha.
  unfold Register.step.
  destruct (ctl s) as [a'|a' p| |]; simpl in Ha; try discriminate;
    injection Ha as ->.
  - unfold solve.
    assert (Hc : cuda && negb (cuda_is_available w (hist s ++ past)) = false).
    { destruct cuda; [rewrite Hcuda by reflexivity|]; reflexivity. }
    rewrite Hc.
    destruct (create_pow w (hist s ++ past)) as [p|] eqn:E.
    + left; reflexivity.
    + exfalso; exact (Hpow _ E).
  - unfold submit.
    destruct (is_stale w (hist s ++ past) p); [left; reflexivity|].
    destruct (do_pow_register w _ p) as [success err_msg].
    destruct (is_not_True success || is_False success).
    + destruct err_msg as [m|]; [|right; right; reflexivity].
      destruct (str_in _ m); [right; left; reflexivity | left; reflexivity].
    + destruct (is_hotkey_registered w _); [right; left; reflexivity | left; reflexivity].
Qed.

(** When, in addition, every submission is rejected with a message that
    does not mention an existing registration, the loop never ends. *)
Lemma step_rejected_keeps_running (s : St) (a : Z) :
  (cuda = true -> forall h, cuda_is_available w h = true) ->
  (forall h, create_pow w h <> None) ->
  (forall h p, exists m, do_pow_register w h p = (false, Some m)
                         /\ str_in "key is already registered" m = false) ->
  attempts_of (ctl s) = Some a ->
  attempts_of (ctl (step s)) = Some a.
Proof.
  intros Hcuda Hpow Hrej Ha.
  destruct (step_keeps_attempts s a Hcuda Hpow Ha) as [H|H]; [exact H|exfalso].
  unfold Register.step in H.
  destruct (ctl s) as [a'|a' p| |]; simpl in Ha; try discriminate.
  - unfold solve in H.
    destruct (cuda && negb (cuda_is_available w (hist s ++ past))).
    + destruct H as [H|H]; discriminate.
    + destruct (create_pow w (hist s ++ past)) as [p|] eqn:E.
      * destruct H as [H|H]; discriminate.
      * exact (Hpow _ E).
  - unfold submit in H.
    destruct (is_stale w (hist s ++ past) p); [destruct H as [H|H]; discriminate|].
    destruct (Hrej (EvIsStale false :: hist s ++ past) p) as [m [E Hm]].
    change ((EvIsStale false :: hist s) ++ past) with (EvIsStale false :: hist s ++ past) in H.
    rewrite E in H; simpl in H; rewrite Hm in H.
    destruct H as [H|H]; discriminate.
Qed.

(** Equations of the machine at its two control points. *)

Lemma run_S (n : nat) (s : St) : run (S n) s = run n (step s).
Proof. reflexivity. Qed.

Lemma step_Solve (a : Z) (h : history) :
  step (mkSt (Solve a) h) = solve w past max_allowed_attempts cuda a h.
Proof. reflexivity. Qed.

Lemma step_SubmitLoop (a : Z) (p : POWSolution) (h : history) :
  step (mkSt (SubmitLoop a p) h) = submit w past a p h.
Proof. reflexivity. Qed.

Lemma submit_stale (a : Z) (p : POWSolution) (h : history) :
  is_stale w (h ++ past) p = true ->
  submit w past a p h = mkSt (Solve a) (EvIsStale true :: h).
Proof. intro E; unfold submit; rewrite E; reflexivity. Qed.

Lemma submit_accepted (a : Z) (p : POWSolution) (h : history) (m : option string) :
  is_stale w (h ++ past) p = false ->
  do_pow_register w (EvIsStale false :: h ++ past) p = (true, m) ->
  submit w past a p h
  = let r := is_hotkey_registered w
               (EvPowRegister true m :: EvIsStale false :: h ++ past) in
    mkSt (if r then Returned true else SubmitLoop a p)
         (EvIsHotkeyRegistered r :: EvPowRegister true m :: EvIsStale false :: h).
Proof.
  intros E1 E2; unfold submit; rewrite E1.
  change ((EvIsStale false :: h) ++ past) with (EvIsStale false :: h ++ past).
  rewrite E2; simpl.
  destruct (is_hotkey_registered w _); reflexivity.
Qed.

Lemma submit_rejected (a : Z) (p : POWSolution) (h : history) (m : option string) :
  is_stale w (h ++ past) p = false ->
  do_pow_register w (EvIsStale false :: h ++ past) p = (false, m) ->
  submit w past a p h
  = mkSt match m with
         | None => Raised TypeError
         | Some msg =>
             if str_in "key is already registered" msg then Returned true
             else SubmitLoop a p
         end
         (EvPowRegister false m :: EvIsStale false :: h).
Proof.
  intros E1 E2; unfold submit; rewrite E1.
  change ((EvIsStale false :: h) ++ past) with (EvIsStale false :: h ++ past).
  rewrite E2; simpl.
  destruct m as [msg|]; [destruct (str_in _ msg)|]; reflexivity.
Qed.

(** Case analysis on one step: a goal about [step s] is split along
    the branches of the source, and [step s] is replaced by the state
    each branch produces. *)
Ltac step_cases s :=
  let a := fresh "a" in
  let p := fresh "p" in
  let h := fresh "h" in
  let m := fresh "m" in
  let msg := fresh "msg" in
  let Estale := fresh "Estale" in
  let Esub := fresh "Esub" in
  let Emsg := fresh "Emsg" in
  let Ereg := fresh "Ereg" in
  destruct s as [[a|a p| |] h];
  [ rewrite step_Solve; unfold solve, accounting;
    match goal with
    | |- context [?c && negb (cuda_is_available ?w ?x)] =>
        destruct (c && negb (cuda_is_available w x))
    end;
    [| match goal with
       | |- context [create_pow ?w ?x] => destruct (create_pow w x) as [p|]
       end;
       [| match goal with
          | |- context [is_hotkey_registered ?w ?x] =>
              destruct (is_hotkey_registered w x) eqn:Ereg
          end;
          [| match goal with
             | |- context [?x <? ?y] => destruct (x <? y)
             end ] ] ]
  | rewrite step_SubmitLoop;
    match goal with
    | |- context [submit ?w ?past _ _ _] =>
        destruct (is_stale w (h ++ past) p) eqn:Estale;
        [ rewrite (submit_stale a p h Estale)
        | destruct (do_pow_register w (EvIsStale false :: h ++ past) p)
            as [[|] m] eqn:Esub;
          [ rewrite (submit_accepted a p h m Estale Esub); cbv zeta;
            match goal with
            | |- context [is_hotkey_registered ?w ?x] =>
                destruct (is_hotkey_registered w x) eqn:Ereg
            end
          | rewrite (submit_rejected a p h m Estale Esub);
            destruct m as [msg|];
            [ destruct (str_in "key is already registered" msg) eqn:Emsg | ] ] ]
    end
  | rewrite step_stopped by reflexivity
  | rewrite step_stopped by reflexivity ].

Lemma cuda_guard_passes (h : history) :
  (cuda = true -> forall h', cuda_is_available w h' = true) ->
  cuda && negb (cuda_is_available w h) = false.
Proof.
  intro Hcuda; destruct cuda; [rewrite Hcuda by reflexivity|]; reflexivity.
Qed.

(** A step from the top of the outer loop calls the solver once. *)
Lemma solve_calls_solver (a : Z) (h : history) :
  (cuda = true -> forall h', cuda_is_available w h' = true) ->
  solver_calls (hist (step (mkSt (Solve a) h))) = S (solver_calls h)
  /\ submissions (hist (step (mkSt (Solve a) h))) = submissions h.
Proof.
  intro Hcuda; unfold Register.step, solve; simpl ctl; simpl hist.
  rewrite (cuda_guard_passes _ Hcuda).
  destruct (create_pow w (h ++ past)) as [p|]; [split; reflexivity|].
  destruct (is_hotkey_registered w _); [split; reflexivity|].
  unfold accounting; destruct (a <? max_allowed_attempts); split; reflexivity.
Qed.

(** What the accounting block does after a solver failure. *)
Lemma step_solver_failure (a : Z) (h : history) :
  (cuda = true -> forall h', cuda_is_available w h' = true) ->
  create_pow w (h ++ past) = None ->
  is_hotkey_registered w (EvCreatePow None :: h ++ past) = false ->
  step (mkSt (Solve a) h)
  = mkSt (if a <? max_allowed_attempts then Solve (a + 1) else Returned false)
         (EvIsHotkeyRegistered false :: EvCreatePow None :: h).
Proof.
  intros Hcuda Hpow Hreg; unfold Register.step, solve; simpl ctl; simpl hist.
  rewrite (cuda_guard_passes _ Hcuda), Hpow.
  change ((EvCreatePow None :: h) ++ past) with (EvCreatePow None :: h ++ past).
  rewrite Hreg; unfold accounting.
  destruct (a <? max_allowed_attempts); reflexivity.
Qed.

(** A rejection that names an existing registration ends the call: it
    can only be the newest event of a history, and then the function has
    returned [True]. *)
Lemma rejection_invariant :
  forall fuel,
    let s := register_extrinsic fuel in
    existsb is_already_registered_rejection (tl (hist s)) = false
    /\ (existsb is_already_registered_rejection (hist s) = true ->
        ctl s = Returned true).
Proof.
  apply (reachable_ind
           (fun s => existsb is_already_registered_rejection (tl (hist s)) = false
                     /\ (existsb is_already_registered_rejection (hist s) = true ->
                         ctl s = Returned true))).
  - unfold Register.entry, after_prompt.
    destruct (subnet_exists w past); simpl; [|split; [reflexivity|discriminate]].
    destruct (neuron_is_null w _); simpl; [|split; [reflexivity|discriminate]].
    destruct prompt; [destruct (confirm_ask w _)|]; destruct (torch w); simpl;
      split; try reflexivity; discriminate.
  - intros s [Htl Hhd].
    assert (Hrun : running s = true ->
                   existsb is_already_registered_rejection (hist s) = false).
    { intro R; destruct (existsb _ (hist s)); [|reflexivity].
      unfold running in R; rewrite (Hhd eq_refl) in R; discriminate. }
    step_cases s; simpl in *; try (split; assumption);
      specialize (Hrun eq_refl); rewrite ?Emsg, ?Hrun;
      split; solve [reflexivity | discriminate | assumption].
Qed.

(** Every accepted submission is followed by a probe, and the state
    agrees with the answer of the newest probe. *)
Lemma probe_invariant :
  forall fuel,
    let s := register_extrinsic fuel in
    probed (hist s) /\ settled (ctl s) (hist s).
Proof.
  apply (reachable_ind (fun s => probed (hist s) /\ settled (ctl s) (hist s))).
  - unfold Register.entry, after_prompt.
    destruct (subnet_exists w past); [|simpl; unfold may_follow, settled; simpl; tauto].
    destruct (neuron_is_null w _); [|simpl; unfold may_follow, settled; simpl; tauto].
    destruct prompt; [destruct (confirm_ask w _)|]; destruct (torch w);
      simpl; unfold may_follow, settled; simpl; tauto.
  - intros s [Hp Hs].
    step_cases s; simpl in *; unfold may_follow, settled in *; simpl in *;
      try (split; assumption);
      destruct (tail_kind h) as [|[|]|];
      try contradiction; try discriminate;
      try (exfalso; destruct Hs as (a0 & p0 & Hs); discriminate Hs);
      repeat split; eauto.
Qed.

Lemma probed_suffix (newer older : history) :
  probed (newer ++ older) -> probed older.
Proof.
  induction newer as [|e newer IH]; simpl; [tauto|].
  intros [_ H]; exact (IH H).
Qed.

(** The same fact read along the run, oldest event first: whatever comes
    after an accepted submission starts with a probe; a probe that
    confirms is the last event and the function has returned [True]; a
    probe that denies leaves the function at the test of the inner loop,
    whose next event is a staleness check. *)
Lemma accepted_then_probed (fuel : nat) (pre post : history) (m : option string) :
  let s := register_extrinsic fuel in
  rev (hist s) = pre ++ EvPowRegister true m :: post ->
  exists r post',
    post = EvIsHotkeyRegistered r :: post'
    /\ (r = true -> post' = [] /\ ctl s = Returned true)
    /\ (r = false ->
        match post' with
        | [] => exists a p, ctl s = SubmitLoop a p
        | e :: _ => exists b, e = EvIsStale b
        end).
Proof.
  intros s Hrev.
  destruct (probe_invariant fuel) as [Hp Hs]; fold s in Hp, Hs.
  assert (E : hist s = rev post ++ EvPowRegister true m :: rev pre).
  { rewrite <- (rev_involutive (hist s)), Hrev, rev_app_distr; simpl.
    rewrite <- app_assoc; reflexivity. }
  rewrite E in Hp, Hs; clear E Hrev.
  destruct post as [|e1 [|e2 rest]]; simpl in Hp, Hs.
  - unfold settled in Hs; simpl in Hs; contradiction.
  - destruct Hp as [[r ->] _].
    exists r, []; split; [reflexivity|].
    unfold settled in Hs; simpl in Hs.
    split; intros ->; [split; [reflexivity|exact Hs] | exact Hs].
  - rewrite <- !app_assoc in Hp; simpl in Hp.
    apply probed_suffix in Hp; destruct Hp as [H2 [[r ->] _]].
    exists r, (e2 :: rest); split; [reflexivity|].
    unfold may_follow in H2; simpl in H2.
    split; intros ->; [contradiction | exact H2].
Qed.

End Generic.

(** *** Runs in which solutions only expire *)

Section Expiry.

Variable w : World.
Variable past : history.
Variable prompt : bool.
Variable max_allowed_attempts : Z.
Variable cuda : bool.
Variable window : nat.

Hypothesis cuda_ok : cuda = true -> forall h, cuda_is_available w h = true.
Hypothesis solver_ok : forall h, create_pow w h <> None.
Hypothesis accepted : forall h p, fst (do_pow_register w h p) = true.
Hypothesis unconfirmed : forall h, is_hotkey_registered w h = false.
Hypothesis expires :
  forall h p, (window <= checks_since_solve h)%nat -> is_stale w h p = true.

Local Abbreviation step := (step w past max_allowed_attempts cuda).
Local Abbreviation run := (run w past max_allowed_attempts cuda).

Lemma step_expiry_keeps_running (s : St) (a : Z) :
  attempts_of (ctl s) = Some a -> attempts_of (ctl (step s)) = Some a.
Proof.
  intro Ha.
  destruct (step_keeps_attempts w past max_allowed_attempts cuda s a cuda_ok solver_ok Ha)
    as [H|H]; [exact H|exfalso].
  unfold Register.step in H.
  destruct (ctl s) as [a'|a' p| |]; simpl in Ha; try discriminate.
  - unfold solve in H; rewrite (cuda_guard_passes w cuda _ cuda_ok) in H.
    destruct (create_pow w (hist s ++ past)) as [p|] eqn:E.
    + destruct H as [H|H]; discriminate.
    + exact (solver_ok _ E).
  - unfold submit in H.
    destruct (is_stale w (hist s ++ past) p); [destruct H as [H|H]; discriminate|].
    pose proof (accepted ((EvIsStale false :: hist s) ++ past) p) as Hacc.
    destruct (do_pow_register w _ p) as [success err_msg].
    simpl in Hacc; subst success; simpl in H.
    rewrite unconfirmed in H.
    destruct H as [H|H]; discriminate.
Qed.

(** The inner loop is left, towards a new solve, after at most [window]
    further staleness checks. *)
Lemma submit_loop_expires (k : nat) :
  forall (a : Z) (p : POWSolution) (h : history),
    (window <= checks_since_solve (h ++ past) + k)%nat ->
    exists n h',
      run n (mkSt (SubmitLoop a p) h) = mkSt (Solve a) h'
      /\ solver_calls h' = solver_calls h.
Proof.
  induction k as [|k IH]; intros a p h Hk.
  - exists 1%nat, (EvIsStale true :: h); split; [|reflexivity].
    rewrite run_S, step_SubmitLoop, submit_stale; [reflexivity|].
    apply expires; lia.
  - destruct (is_stale w (h ++ past) p) eqn:Est.
    + exists 1%nat, (EvIsStale true :: h); split; [|reflexivity].
      rewrite run_S, step_SubmitLoop, submit_stale; [reflexivity|exact Est].
    + pose proof (accepted ((EvIsStale false :: h) ++ past) p) as Hacc.
      destruct (do_pow_register w ((EvIsStale false :: h) ++ past) p)
        as [success err_msg] eqn:Esub.
      simpl in Hacc; subst success.
      destruct (IH a p (EvIsHotkeyRegistered false :: EvPowRegister true err_msg
                          :: EvIsStale false :: h)) as [n [h' [Hrun Hcalls]]].
      { simpl; lia. }
      exists (S n), h'; split; [|exact Hcalls].
      rewrite run_S, step_SubmitLoop, (submit_accepted _ _ _ _ _ err_msg Est Esub).
      cbv zeta; rewrite unconfirmed; exact Hrun.
Qed.

Lemma keeps_resolving (n : nat) :
  ctl (entry w past prompt) = Solve 1 ->
  exists fuel h,
    register_extrinsic w past prompt max_allowed_attempts cuda fuel = mkSt (Solve 1) h
    /\ (n <= solver_calls h)%nat.
Proof.
  intro Hentry; induction n as [|n IH].
  - exists 0%nat, (hist (entry w past prompt)); split; [|lia].
    unfold register_extrinsic; simpl.
    destruct (entry w past prompt) as [c h]; simpl in *; subst c; reflexivity.
  - destruct IH as [fuel [h [Hrun Hn]]].
    destruct (create_pow w (h ++ past)) as [p|] eqn:Epow;
      [|exfalso; exact (solver_ok _ Epow)].
    destruct (submit_loop_expires window 1 p (EvCreatePow (Some p) :: h))
      as [m [h' [Hloop Hcalls]]]; [lia|].
    exists (fuel + S m)%nat, h'; split.
    + unfold register_extrinsic in *; rewrite run_plus, Hrun.
      rewrite run_S, step_Solve; unfold solve.
      rewrite (cuda_guard_passes w cuda _ cuda_ok), Epow; exact Hloop.
    + rewrite Hcalls; unfold solver_calls, count in *; simpl; lia.
Qed.

End Expiry.

(** C4.  Take any run that gets past the preconditions and in which
    solutions only ever expire: the solver always delivers, no submission
    is rejected, no confirmation probe succeeds, and every solution is
    stale after at most [window] staleness checks.  Then after any number
    of steps the function is still inside the loop with [attempts] at its
    initial value 1 (so the ceiling is never exhausted and [False] is never
    returned), and the number of solver invocations grows without bound. *)
Theorem staleness_never_consumes_attempts
    (w : World) (past : history) (prompt : bool) (max_allowed_attempts : Z)
    (cuda : bool) (window : nat) :
  ctl (entry w past prompt) = Solve 1 ->
  (cuda = true -> forall h, cuda_is_available w h = true) ->
  (forall h, create_pow w h <> None) ->
  (forall h p, fst (do_pow_register w h p) = true) ->
  (forall h, is_hotkey_registered w h = false) ->
  (forall h p, (window <= checks_since_solve h)%nat -> is_stale w h p = true) ->
  (forall fuel,
     attempts_of (ctl (register_extrinsic w past prompt max_allowed_attempts cuda fuel))
     = Some 1)
  /\ (forall n, exists fuel,
        (n <= solver_calls
                (hist (register_extrinsic w past prompt max_allowed_attempts cuda fuel)))%nat).
Proof.
  intros Hentry Hcuda Hpow Hacc Hreg Hexp; split.
  - apply (reachable_ind w past prompt max_allowed_attempts cuda
             (fun s => attempts_of (ctl s) = Some 1)).
    + rewrite Hentry; reflexivity.
    + intros s Hs; apply step_expiry_keeps_running; assumption.
  - intro n.
    destruct (keeps_resolving w past prompt max_allowed_attempts cuda window
                Hcuda Hpow Hacc Hreg Hexp n Hentry) as [fuel [h [Hrun Hn]]].
    exists fuel; rewrite Hrun; exact Hn.
Qed.

Lemma staleness_never_consumes_attempts_witness :
  attempts_of (ctl (register_extrinsic expiring [] false 1 false 50)) = Some 1
  /\ exists fuel,
       (10 <= solver_calls (hist (register_extrinsic expiring [] false 1 false fuel)))%nat.
Proof.
  destruct (staleness_never_consumes_attempts expiring [] false 1 false 1) as [H1 H2].
  - reflexivity.
  - intros _ h; reflexivity.
  - intros h; discriminate.
  - intros h p; reflexivity.
  - intros h; reflexivity.
  - intros h p Hh; unfold expiring, world_of, is_stale, stale_after_one_check.
    apply Nat.leb_le; exact Hh.
  - split; [apply H1 | apply H2].
Defined.

(** C1 (defect in the code).  The claim: with [max_allowed_attempts = 2], a
    solver that always delivers and a chain that rejects every submission
    with a generic error, the function returns [False] after exactly two
    solve-and-submit cycles.  The code at this input: the inner [while] has
    no [break], so a rejected submission goes back to the staleness test and
    a stale solution [continue]s the outer loop past the attempt accounting.
    [attempts] is 1 after any number of steps, the function never returns,
    and after the second cycle it goes on with a third. *)
Theorem rejected_submissions_never_reach_ceiling :
  (forall fuel,
     attempts_of (ctl (register_extrinsic rejecting [] false 2 false fuel)) = Some 1)
  /\ (let s := register_extrinsic rejecting [] false 2 false 9 in
      ctl s = Solve 1
      /\ solver_calls (hist s) = 3%nat
      /\ submissions (hist s) = 3%nat).
Proof.
  split; [|vm_compute; repeat split; reflexivity].
  apply (reachable_ind rejecting [] false 2 false
           (fun s => attempts_of (ctl s) = Some 1)); [reflexivity|].
  intros s Hs; apply step_rejected_keeps_running; try assumption.
  - intros _ h; reflexivity.
  - intros h; discriminate.
  - intros h p; exists "generic error"; split; reflexivity.
Qed.

(** *** Runs in which the solver never finds a solution *)

Section NoSolution.

Variable w : World.
Variable past : history.
Variable prompt : bool.
Variable max_allowed_attempts : Z.
Variable cuda : bool.

Hypothesis cuda_ok : cuda = true -> forall h, cuda_is_available w h = true.
Hypothesis no_pow : forall h, create_pow w h = None.
Hypothesis unregistered : forall h, is_hotkey_registered w h = false.

Local Abbreviation run := (run w past max_allowed_attempts cuda).

Lemma entry_calls_nobody :
  solver_calls (hist (entry w past prompt)) = 0%nat
  /\ submissions (hist (entry w past prompt)) = 0%nat.
Proof.
  unfold entry, after_prompt.
  destruct (subnet_exists w past); simpl; [|split; reflexivity].
  destruct (neuron_is_null w _); simpl; [|split; reflexivity].
  destruct prompt; [destruct (confirm_ask w _)|]; destruct (torch w);
    split; reflexivity.
Qed.

Lemma countdown (k : nat) :
  forall (a : Z) (h : history),
    k = Z.to_nat (max_allowed_attempts - a) ->
    let s := run (S k) (mkSt (Solve a) h) in
    ctl s = Returned false
    /\ solver_calls (hist s) = (solver_calls h + S k)%nat
    /\ submissions (hist s) = submissions h.
Proof.
  induction k as [|k IH]; intros a h Hk s; unfold s; clear s;
    rewrite run_S, (step_solver_failure w past max_allowed_attempts cuda a h
                      cuda_ok (no_pow _) (unregistered _)).
  - destruct (Z.ltb_spec a max_allowed_attempts) as [Hlt|Hge]; [lia|].
    simpl; repeat split.
    unfold solver_calls, count; simpl; lia.
  - destruct (Z.ltb_spec a max_allowed_attempts) as [Hlt|Hge]; [|lia].
    destruct (IH (a + 1) (EvIsHotkeyRegistered false :: EvCreatePow None :: h))
      as [Hc [Hs Hsub]]; [lia|].
    split; [exact Hc|]; split; [|exact Hsub].
    rewrite Hs; unfold solver_calls, count; simpl; lia.
Qed.

(** The call gives up after exactly [max_allowed_attempts] solver
    invocations (one if the ceiling is below 1), without any submission. *)
Lemma no_solution_exhausts_ceiling :
  ctl (entry w past prompt) = Solve 1 ->
  let n := Z.to_nat (Z.max 1 max_allowed_attempts) in
  let s := register_extrinsic w past prompt max_allowed_attempts cuda n in
  ctl s = Returned false
  /\ solver_calls (hist s) = n
  /\ submissions (hist s) = 0%nat.
Proof.
  intros Hentry n s.
  destruct entry_calls_nobody as [H1 H2].
  assert (E : entry w past prompt = mkSt (Solve 1) (hist (entry w past prompt))).
  { destruct (entry w past prompt) as [c h]; simpl in *; subst c; reflexivity. }
  assert (Hn : n = S (Z.to_nat (max_allowed_attempts - 1))) by (unfold n; lia).
  unfold s, register_extrinsic; rewrite E, Hn.
  destruct (countdown (Z.to_nat (max_allowed_attempts - 1)) 1
              (hist (entry w past prompt)) eq_refl) as [Hc [Hs Hsub]].
  split; [exact Hc|]; split; [rewrite Hs, H1; reflexivity | rewrite Hsub; exact H2].
Qed.

End NoSolution.

(** C7, counterexample.  With the default ceiling of 3 and a solver that
    reports no solution, the first failure does not end the call: the
    function is back at the top of the loop with [attempts = 2], and it
    invokes the solver three times before it returns [False]. *)
Lemma solver_failure_is_retried :
  ctl (register_extrinsic no_solution [] false 3 false 1) = Solve 2
  /\ ctl (register_extrinsic no_solution [] false 3 false 3) = Returned false
  /\ solver_calls (hist (register_extrinsic no_solution [] false 3 false 3)) = 3%nat.
Proof. vm_compute; repeat split; reflexivity. Qed.

(** C7, as the code has it.  When the solver reports no solution and the
    hotkey is not registered, the failure consumes one attempt.  If
    [attempts] has reached [max_allowed_attempts] the function returns
    [False] and makes no further call; otherwise [attempts] is incremented
    and the next thing the function does is to invoke the solver again. *)
Theorem solver_failure_consumes_one_attempt
    (w : World) (past : history) (max_allowed_attempts : Z) (cuda : bool)
    (a : Z) (h : history) :
  (cuda = true -> forall h', cuda_is_available w h' = true) ->
  create_pow w (h ++ past) = None ->
  is_hotkey_registered w (EvCreatePow None :: h ++ past) = false ->
  let s1 := step w past max_allowed_attempts cuda (mkSt (Solve a) h) in
  let h1 := EvIsHotkeyRegistered false :: EvCreatePow None :: h in
  (max_allowed_attempts <= a ->
     s1 = mkSt (Returned false) h1
     /\ forall n, run w past max_allowed_attempts cuda n s1 = s1)
  /\ (a < max_allowed_attempts ->
      s1 = mkSt (Solve (a + 1)) h1
      /\ solver_calls (hist (step w past max_allowed_attempts cuda s1))
         = S (solver_calls h1)).
Proof.
  intros Hcuda Hpow Hreg s1 h1.
  assert (E : s1 = mkSt (if a <? max_allowed_attempts then Solve (a + 1) else Returned false) h1)
    by (apply step_solver_failure; assumption).
  split; intro Hlt.
  - destruct (Z.ltb_spec a max_allowed_attempts) as [?|_]; [lia|].
    split; [exact E|].
    intro n; apply run_stopped; rewrite E; reflexivity.
  - destruct (Z.ltb_spec a max_allowed_attempts) as [_|?]; [|lia].
    split; [exact E|].
    rewrite E; apply solve_calls_solver; exact Hcuda.
Qed.

Lemma solver_failure_consumes_one_attempt_witness :
  ctl (step no_solution [] 3 false (mkSt (Solve 1) [])) = Solve 2
  /\ ctl (step no_solution [] 3 false (mkSt (Solve 3) [])) = Returned false.
Proof.
  pose proof (solver_failure_consumes_one_attempt no_solution [] 3 false 1 []
                (fun _ _ => eq_refl) eq_refl eq_refl) as [_ H1].
  pose proof (solver_failure_consumes_one_attempt no_solution [] 3 false 3 []
                (fun _ _ => eq_refl) eq_refl eq_refl) as [H3 _].
  destruct (H1 ltac:(lia)) as [E1 _].
  destruct (H3 ltac:(lia)) as [E3 _].
  split; [rewrite E1 | rewrite E3]; reflexivity.
Defined.

(** C5.  Whenever a submission is rejected with a message that contains
    "key is already registered", the function has returned [True], the
    rejection is the last call it made (no further solver invocation, no
    further submission), and it stays that way. *)
Theorem already_registered_rejection_returns_true
    (w : World) (past : history) (prompt : bool) (max_allowed_attempts : Z)
    (cuda : bool) (fuel : nat) (m : string) :
  In (EvPowRegister false (Some m))
     (hist (register_extrinsic w past prompt max_allowed_attempts cuda fuel)) ->
  str_in "key is already registered" m = true ->
  let s := register_extrinsic w past prompt max_allowed_attempts cuda fuel in
  ctl s = Returned true
  /\ (exists older, hist s = EvPowRegister false (Some m) :: older)
  /\ (forall more,
       register_extrinsic w past prompt max_allowed_attempts cuda (fuel + more) = s).
Proof.
  intros Hin Hm s; fold s in Hin.
  destruct (rejection_invariant w past prompt max_allowed_attempts cuda fuel)
    as [Htl Hhd]; fold s in Htl, Hhd.
  assert (Hex : existsb is_already_registered_rejection (hist s) = true).
  { apply existsb_exists; exists (EvPowRegister false (Some m)); split;
      [exact Hin | exact Hm]. }
  assert (Hret : ctl s = Returned true) by exact (Hhd Hex).
  split; [exact Hret|]; split.
  - destruct (hist s) as [|e older]; [contradiction|].
    destruct Hin as [->|Hin]; [exists older; reflexivity|exfalso].
    simpl in Htl.
    assert (Hex' : existsb is_already_registered_rejection older = true).
    { apply existsb_exists; exists (EvPowRegister false (Some m)); split;
        [exact Hin | exact Hm]. }
    rewrite Hex' in Htl; discriminate.
  - intro more; unfold register_extrinsic; rewrite run_plus.
    apply run_stopped; unfold running.
    change (Register.run w past max_allowed_attempts cuda fuel (entry w past prompt))
      with s.
    rewrite Hret; reflexivity.
Qed.

Lemma already_registered_rejection_returns_true_witness :
  let s := register_extrinsic raced [] false 3 false 2 in
  ctl s = Returned true
  /\ (exists older,
        hist s = EvPowRegister false (Some "Error: key is already registered") :: older)
  /\ (forall more, register_extrinsic raced [] false 3 false (2 + more) = s).
Proof.
  apply (already_registered_rejection_returns_true raced [] false 3 false 2
           "Error: key is already registered").
  - left; reflexivity.
  - reflexivity.
Defined.

(** C3.  If the subnet exists and the hotkey is already registered there,
    the function returns [True] having asked the chain those two questions
    only: the solver is not invoked and nothing is submitted.  [past] is
    arbitrary, so this covers a call that comes after an earlier call which
    registered the hotkey: the second call succeeds as well and submits
    nothing. *)
Theorem registered_hotkey_short_circuits :
  (forall (w : World) (past : history) (prompt : bool) (max_allowed_attempts : Z)
          (cuda : bool) (fuel : nat),
     subnet_exists w past = true ->
     neuron_is_null w (EvSubnetExists true :: past) = false ->
     let s := register_extrinsic w past prompt max_allowed_attempts cuda fuel in
     s = mkSt (Returned true) [EvGetNeuron false; EvSubnetExists true]
     /\ solver_calls (hist s) = 0%nat
     /\ submissions (hist s) = 0%nat)
  /\ (forall (w : World) (past : history) (prompt1 prompt2 : bool) (max1 max2 : Z)
             (cuda1 cuda2 : bool) (fuel1 fuel2 : nat),
        let s1 := register_extrinsic w past prompt1 max1 cuda1 fuel1 in
        let s2 := register_extrinsic w (hist s1 ++ past) prompt2 max2 cuda2 fuel2 in
        ctl s1 = Returned true ->
        subnet_exists w (hist s1 ++ past) = true ->
        neuron_is_null w (EvSubnetExists true :: hist s1 ++ past) = false ->
        ctl s1 = Returned true
        /\ ctl s2 = Returned true
        /\ solver_calls (hist s2) = 0%nat
        /\ submissions (hist s2) = 0%nat).
Proof.
  assert (A : forall w past prompt max_allowed_attempts cuda fuel,
             subnet_exists w past = true ->
             neuron_is_null w (EvSubnetExists true :: past) = false ->
             register_extrinsic w past prompt max_allowed_attempts cuda fuel
             = mkSt (Returned true) [EvGetNeuron false; EvSubnetExists true]).
  { intros w past prompt mx cuda fuel He Hn.
    unfold register_extrinsic.
    assert (E : entry w past prompt
                = mkSt (Returned true) [EvGetNeuron false; EvSubnetExists true]).
    { unfold entry; rewrite He; simpl; rewrite Hn; reflexivity. }
    rewrite E; apply run_stopped; reflexivity. }
  split.
  - intros w past prompt mx cuda fuel He Hn s.
    unfold s; rewrite (A w past prompt mx cuda fuel He Hn).
    repeat split; reflexivity.
  - intros w past prompt1 prompt2 max1 max2 cuda1 cuda2 fuel1 fuel2 s1 s2 H1 He Hn.
    unfold s2; rewrite (A w (hist s1 ++ past) prompt2 max2 cuda2 fuel2 He Hn).
    repeat split; [exact H1 | reflexivity ..].
Qed.

Lemma registered_hotkey_short_circuits_witness :
  let s1 := register_extrinsic ledger [] false 3 false 2 in
  let s2 := register_extrinsic ledger (hist s1 ++ []) false 3 false 5 in
  submissions (hist s1) = 1%nat
  /\ ctl s1 = Returned true
  /\ ctl s2 = Returned true
  /\ solver_calls (hist s2) = 0%nat
  /\ submissions (hist s2) = 0%nat.
Proof.
  split; [reflexivity|].
  apply (proj2 registered_hotkey_short_circuits ledger [] false false 3 3 false false 2%nat 5%nat);
    reflexivity.
Defined.

(** C10 (defect in the code).  The claim: whatever pair the chain client
    returns from a submission, the function ends with a boolean and no
    exception reaches the caller.  The code at a rejected submission
    without a message, [(False, None)]: line 180 evaluates
    ["key is already registered" in None], which raises [TypeError]. *)
Theorem rejection_without_message_raises :
  do_pow_register silent_rejection [] pow0 = (false, None)
  /\ ctl (register_extrinsic silent_rejection [] false 3 false 2) = Raised TypeError
  /\ forall fuel,
       ctl (register_extrinsic silent_rejection [] false 3 false (2 + fuel))
       = Raised TypeError.
Proof.
  split; [reflexivity|]; split; [reflexivity|].
  intro fuel; unfold register_extrinsic; rewrite run_plus.
  rewrite run_stopped; reflexivity.
Qed.

End RegisterFacts.

(** * Properties of [burned_register_extrinsic] *)

Module BurnedFacts.

Import Burned Scenarios.

(** Split a goal about the function along the branches of the source. *)
Ltac burned_cases w past prompt :=
  unfold burned_register_extrinsic, recycle_and_check;
  destruct (subnet_exists w past); simpl;
  [ destruct (neuron_is_null w _); simpl;
    [ destruct prompt; [destruct (confirm_ask w _); simpl|];
      try (destruct (do_burned_register w _) as [[|] ?]; simpl;
           [destruct (is_hotkey_registered w _); simpl|])
    | ]
  | ].

Ltac pick_event H :=
  simpl in H;
  repeat (destruct H as [H|H]; [try discriminate H|]);
  try contradiction.

Lemma burned_at_most_one_submission (w : World) (past : history) (prompt : bool) :
  (submissions (hist (burned_register_extrinsic w past prompt)) <= 1)%nat.
Proof.
  burned_cases w past prompt; unfold submissions, count; simpl; lia.
Qed.

Lemma burned_rejection_returns_false
    (w : World) (past : history) (prompt : bool) (m : option string) :
  let o := burned_register_extrinsic w past prompt in
  In (EvBurnedRegister false m) (hist o) ->
  result o = false
  /\ exists older, hist o = EvBurnedRegister false m :: older
                   /\ submissions older = 0%nat.
Proof.
  burned_cases w past prompt; intro H; pick_event H;
    injection H as ->; (split; [reflexivity|]); eexists; split; reflexivity.
Qed.

Lemma burned_accepted_then_probed
    (w : World) (past : history) (prompt : bool) (m : option string) :
  let o := burned_register_extrinsic w past prompt in
  In (EvBurnedRegister true m) (hist o) ->
  exists r older,
    hist o = EvIsHotkeyRegistered r :: EvGetBalance :: EvCurrentBlock
               :: EvBurnedRegister true m :: older
    /\ result o = r.
Proof.
  burned_cases w past prompt; intro H; pick_event H;
    injection H as ->; do 2 eexists; split; reflexivity.
Qed.

(** C6, counterexample.  The chain rejects the single submission with the
    message "already registered"; the function returns [False]. *)
Lemma burned_already_registered_returns_false :
  burned_register_extrinsic raced [] false
  = mkOut false [EvBurnedRegister false (Some "already registered");
                 EvRecycle; EvGetBalance; EvGetNeuron true; EvSubnetExists true]
  /\ str_in "already registered" "already registered" = true.
Proof. split; reflexivity. Qed.

(** C6, as the code has it.  The function submits at most once and has
    no retry loop.  If that submission is rejected the call returns
    [False] whatever the error message says, and the submission is the last
    call the function makes. *)
Theorem burned_rejection_is_failure
    (w : World) (past : history) (prompt : bool) :
  let o := burned_register_extrinsic w past prompt in
  (submissions (hist o) <= 1)%nat
  /\ forall m : option string,
       In (EvBurnedRegister false m) (hist o) ->
       result o = false
       /\ exists older, hist o = EvBurnedRegister false m :: older
                        /\ submissions older = 0%nat.
Proof.
  split; [apply burned_at_most_one_submission|].
  intro m; apply burned_rejection_returns_false.
Qed.

Lemma burned_rejection_is_failure_witness :
  result (burned_register_extrinsic rejecting [] true) = false
  /\ result (burned_register_extrinsic raced [] false) = false.
Proof.
  split.
  - apply (proj2 (burned_rejection_is_failure rejecting [] true) (Some "generic error")).
    left; reflexivity.
  - apply (proj2 (burned_rejection_is_failure raced [] false) (Some "already registered")).
    left; reflexivity.
Defined.

End BurnedFacts.

(** * Properties of [run_faucet_extrinsic] *)

Module FaucetFacts.

Import Faucet FaucetSpec Scenarios.

Section Generic.

Variable w : World.
Variable past : history.
Variable prompt : bool.
Variable max_allowed_attempts : Z.
Variable cuda : bool.

Local Abbreviation step := (step w past max_allowed_attempts cuda).
Local Abbreviation run := (run w past max_allowed_attempts cuda).
Local Abbreviation entry := (entry w past prompt).
Local Abbreviation run_faucet_extrinsic :=
  (run_faucet_extrinsic w past prompt max_allowed_attempts cuda).

Lemma faucet_run_step (n : nat) (s : St) : run (S n) s = step (run n s).
Proof.
  revert s; induction n as [|n IH]; intro s; [reflexivity|].
  change (run (S (S n)) s) with (run (S n) (step s)).
  rewrite IH; reflexivity.
Qed.

Lemma faucet_reachable_ind (P : St -> Prop) :
  P entry -> (forall s, P s -> P (step s)) -> forall fuel, P (run_faucet_extrinsic fuel).
Proof.
  intros H0 Hs fuel; unfold Faucet.run_faucet_extrinsic.
  induction fuel as [|n IH]; [exact H0|].
  rewrite faucet_run_step; apply Hs, IH.
Qed.

(** Split a goal about [step s] along the branches of the source, in
    program order. *)
Ltac faucet_cases s :=
  let h := fresh "h" in
  let a := fresh "a" in
  let su := fresh "su" in
  let p := fresh "p" in
  destruct s as [[a su [p|]|[? ?]] h];
  unfold Faucet.step, solve, submit, interruptible; simpl ctl; simpl hist; cbv zeta;
  repeat match goal with
         | |- context [if negb ?c then _ else _] => destruct c eqn:?; simpl negb
         | |- context [if ?c then _ else _] => destruct c eqn:?
         end.

Lemma successes_invariant_holds :
  forall fuel, successes_invariant w past (run_faucet_extrinsic fuel).
Proof.
  apply faucet_reachable_ind.
  - unfold Faucet.entry, after_prompt, successes_invariant.
    destruct prompt; [destruct (confirm_ask w past)|]; destruct (torch w); simpl;
      unfold faucet_successes, count; simpl; try lia; split; try lia; discriminate.
  - intros s; unfold successes_invariant.
    faucet_cases s; simpl; unfold faucet_successes, count; simpl;
      fold (count is_faucet_success h); fold (faucet_successes h);
      try tauto; intros [Hsu Hn];
      repeat match goal with
             | H : (_ =? _) = true |- _ => apply Z.eqb_eq in H
             | H : (_ =? _) = false |- _ => apply Z.eqb_neq in H
             end;
      try lia;
      (split; [lia|]); intro H3;
      solve [ lia
            | left; reflexivity
            | right; eexists; split; [reflexivity|assumption] ].
Qed.

Lemma failures_invariant_holds :
  1 <= max_allowed_attempts ->
  forall fuel, failures_invariant max_allowed_attempts (run_faucet_extrinsic fuel).
Proof.
  intro Hmax; apply faucet_reachable_ind.
  - unfold Faucet.entry, after_prompt, failures_invariant.
    destruct prompt; [destruct (confirm_ask w past)|]; destruct (torch w); simpl;
      unfold faucet_failures, count; simpl; try lia;
      (split; [lia|]); (split; intro H; [discriminate H | lia]).
  - intros s; unfold failures_invariant.
    faucet_cases s; simpl; unfold faucet_failures, count; simpl;
      fold (count is_faucet_failure h); fold (faucet_failures h);
      try tauto; intros [Ha Hn];
      repeat match goal with
             | H : (_ =? _) = true |- _ => apply Z.eqb_eq in H
             | H : (_ =? _) = false |- _ => apply Z.eqb_neq in H
             end;
      try lia;
      (split; [lia|]); split; intro H;
      solve [ lia
            | subst; reflexivity
            | exfalso; unfold max_attempts_msg in H; simpl in H; discriminate H ].
Qed.

End Generic.

(** C8.  The history of a call never contains more than three successful
    faucet submissions, and as soon as it contains the third one the
    function has returned [(True, "Max successes reached: 3")], unless
    Ctrl-C was delivered (a failed submission that exhausts the attempts
    ceiling ends the call with fewer than three successes). *)
Theorem faucet_stops_at_third_success
    (w : World) (past : history) (prompt : bool) (max_allowed_attempts : Z)
    (cuda : bool) (fuel : nat) :
  let s := run_faucet_extrinsic w past prompt max_allowed_attempts cuda fuel in
  (faucet_successes (hist s) <= 3)%nat
  /\ (faucet_successes (hist s) = 3%nat ->
      (forall h, interrupt w h = false) ->
      ctl s = Returned (true, "Max successes reached: 3")).
Proof.
  intro s.
  pose proof (successes_invariant_holds w past prompt max_allowed_attempts cuda fuel) as Inv.
  fold s in Inv; unfold successes_invariant in Inv.
  destruct (ctl s) as [a su pw|r].
  - destruct Inv as [Hsu Hn]; split; [lia|]; intro H3; lia.
  - destruct Inv as [Hle H3]; split; [exact Hle|].
    intros Hthree Hquiet.
    destruct (H3 Hthree) as [->|[older [_ Hint]]]; [reflexivity|].
    rewrite Hquiet in Hint; discriminate.
Qed.

Lemma faucet_stops_at_third_success_witness :
  let s := run_faucet_extrinsic ledger [] false 3 false 6 in
  faucet_successes (hist s) = 3%nat
  /\ ctl s = Returned (true, "Max successes reached: 3").
Proof.
  split; [reflexivity|].
  apply (proj2 (faucet_stops_at_third_success ledger [] false 3 false 6));
    [reflexivity | intro h; reflexivity].
Defined.

(** C9, counterexample.  With [max_allowed_attempts = 2] and submissions
    that fail, succeed and fail again, the function returns the
    max-attempts failure although only one failure has occurred since the
    last success. *)
Lemma faucet_failures_need_not_be_consecutive :
  let s := run_faucet_extrinsic alternating [] false 2 false 6 in
  ctl s = Returned (false, "Max attempts reached: 2")
  /\ consecutive_failures (hist s) = 1%nat
  /\ faucet_successes (hist s) = 1%nat
  /\ faucet_failures (hist s) = 2%nat.
Proof. vm_compute; repeat split; reflexivity. Qed.

(** C9, as the code has it.  [attempts] is never reset, so the ceiling
    bounds the total number of failed submissions of the call, successes in
    between or not: for [max_allowed_attempts >= 1] that number never
    exceeds the ceiling, and the function returns
    [(False, "Max attempts reached: N")] exactly when it reaches it. *)
Theorem faucet_ceiling_counts_all_failures
    (w : World) (past : history) (prompt : bool) (max_allowed_attempts : Z)
    (cuda : bool) (fuel : nat) :
  1 <= max_allowed_attempts ->
  let s := run_faucet_extrinsic w past prompt max_allowed_attempts cuda fuel in
  Z.of_nat (faucet_failures (hist s)) <= max_allowed_attempts
  /\ (ctl s = Returned (false, max_attempts_msg max_allowed_attempts)
      <-> Z.of_nat (faucet_failures (hist s)) = max_allowed_attempts).
Proof.
  intros Hmax s.
  pose proof (failures_invariant_holds w past prompt max_allowed_attempts cuda Hmax fuel)
    as Inv.
  fold s in Inv; unfold failures_invariant in Inv.
  destruct (ctl s) as [a su pw|r].
  - destruct Inv as [Ha Hn]; split; [lia|]; split; intro H; [discriminate H | lia].
  - destruct Inv as [Hle Hiff]; split; [exact Hle|]; split; intro H.
    + apply Hiff; injection H as ->; reflexivity.
    + f_equal; apply Hiff; exact H.
Qed.

Lemma faucet_ceiling_counts_all_failures_witness :
  let s := run_faucet_extrinsic alternating [] false 2 false 6 in
  Z.of_nat (faucet_failures (hist s)) <= 2
  /\ (ctl s = Returned (false, max_attempts_msg 2)
      <-> Z.of_nat (faucet_failures (hist s)) = 2).
Proof.
  apply (faucet_ceiling_counts_all_failures alternating [] false 2 false 6); lia.
Defined.

End FaucetFacts.

(** * Reconfirmation after an accepted submission *)

Module Reconfirmation.

Import Scenarios.

(** C2.  In [register_extrinsic], whatever follows a submission whose
    success flag is set starts with a registration probe.  If the probe
    confirms, it is the last call and the function has returned [True]; if
    it denies, the function has not returned: it is at the test of the
    inner loop, and the next thing it does is a staleness check.  In
    [burned_register_extrinsic], an accepted submission is followed by the
    balance read-back and one probe, and the value returned is the answer
    of that probe. *)
Theorem success_flag_is_reconfirmed :
  (forall (w : World) (past : history) (prompt : bool) (max_allowed_attempts : Z)
          (cuda : bool) (fuel : nat) (pre post : history) (m : option string),
     let s := Register.register_extrinsic w past prompt max_allowed_attempts cuda fuel in
     rev (Register.hist s) = pre ++ EvPowRegister true m :: post ->
     exists r post',
       post = EvIsHotkeyRegistered r :: post'
       /\ (r = true -> post' = [] /\ Register.ctl s = Register.Returned true)
       /\ (r = false ->
           match post' with
           | [] => exists a p, Register.ctl s = Register.SubmitLoop a p
           | e :: _ => exists b, e = EvIsStale b
           end))
  /\ (forall (w : World) (past : history) (prompt : bool) (m : option string),
        let o := Burned.burned_register_extrinsic w past prompt in
        In (EvBurnedRegister true m) (Burned.hist o) ->
        exists r older,
          Burned.hist o = EvIsHotkeyRegistered r :: EvGetBalance :: EvCurrentBlock
                            :: EvBurnedRegister true m :: older
          /\ Burned.result o = r).
Proof.
  split.
  - intros w past prompt mx cuda fuel pre post m.
    apply RegisterFacts.accepted_then_probed.
  - intros w past prompt m.
    apply BurnedFacts.burned_accepted_then_probed.
Qed.

Lemma success_flag_is_reconfirmed_witness :
  Register.ctl (Register.register_extrinsic ledger [] false 3 false 2)
  = Register.Returned true
  /\ (exists a p,
        Register.ctl (Register.register_extrinsic expiring [] false 3 false 2)
        = Register.SubmitLoop a p)
  /\ Burned.result (Burned.burned_register_extrinsic expiring [] false) = false.
Proof.
  split; [|split].
  - destruct (proj1 success_flag_is_reconfirmed ledger [] false 3 false 2%nat
                [EvSubnetExists true; EvGetNeuron true; EvCreatePow (Some pow0);
                 EvIsStale false]
                [EvIsHotkeyRegistered true] None eq_refl)
      as [r [post' [E [Ht _]]]].
    injection E as <- <-.
    exact (proj2 (Ht eq_refl)).
  - destruct (proj1 success_flag_is_reconfirmed expiring [] false 3 false 2%nat
                [EvSubnetExists true; EvGetNeuron true; EvCreatePow (Some pow0);
                 EvIsStale false]
                [EvIsHotkeyRegistered false] None eq_refl)
      as [r [post' [E [_ Hf]]]].
    injection E as <- <-.
    exact (Hf eq_refl).
  - destruct (proj2 success_flag_is_reconfirmed expiring [] false None)
      as [r [older [E Hr]]].
    + simpl; tauto.
    + rewrite Hr; injection E as <- _; reflexivity.
Defined.

End Reconfirmation.

(** * Further properties of [register_extrinsic] *)

Module RegisterHistory.

Import Register RegisterSpec HistorySpec Scenarios MoreScenarios.

(** Split a goal about [step w past mx cuda s] along the branches of the
    source; the resulting state replaces the step. *)
Ltac register_cases s :=
  let a := fresh "a" in
  let p := fresh "p" in
  let h := fresh "h" in
  let m := fresh "m" in
  let msg := fresh "msg" in
  let Ecuda := fresh "Ecuda" in
  let Epow := fresh "Epow" in
  let Estale := fresh "Estale" in
  let Esub := fresh "Esub" in
  let Emsg := fresh "Emsg" in
  let Ereg := fresh "Ereg" in
  let Elt := fresh "Elt" in
  destruct s as [[a|a p| |] h];
  [ rewrite RegisterFacts.step_Solve; unfold solve, accounting;
    match goal with
    | |- context [?c && negb (cuda_is_available ?w ?x)] =>
        destruct (c && negb (cuda_is_available w x)) eqn:Ecuda
    end;
    [| match goal with
       | |- context [create_pow ?w ?x] => destruct (create_pow w x) as [p|] eqn:Epow
       end;
       [| match goal with
          | |- context [is_hotkey_registered ?w ?x] =>
              destruct (is_hotkey_registered w x) eqn:Ereg
          end;
          [| match goal with
             | |- context [?x <? ?y] => destruct (Z.ltb_spec x y) as [Elt|Elt]
             end ] ] ]
  | rewrite RegisterFacts.step_SubmitLoop;
    match goal with
    | |- context [submit ?w ?past _ _ _] =>
        destruct (is_stale w (h ++ past) p) eqn:Estale;
        [ rewrite (RegisterFacts.submit_stale w past a p h Estale)
        | destruct (do_pow_register w (EvIsStale false :: h ++ past) p)
            as [[|] m] eqn:Esub;
          [ rewrite (RegisterFacts.submit_accepted w past a p h m Estale Esub);
            cbv zeta;
            match goal with
            | |- context [is_hotkey_registered ?w ?x] =>
                destruct (is_hotkey_registered w x) eqn:Ereg
            end
          | rewrite (RegisterFacts.submit_rejected w past a p h m Estale Esub);
            destruct m as [msg|];
            [ destruct (str_in "key is already registered" msg) eqn:Emsg | ] ] ]
    end
  | rewrite RegisterFacts.step_stopped by reflexivity
  | rewrite RegisterFacts.step_stopped by reflexivity ].

(** Split a goal about [entry w past prompt] along lines 83-115. *)
Ltac entry_cases w past prompt :=
  unfold entry, after_prompt;
  destruct (subnet_exists w past) eqn:?; simpl;
  [ destruct (neuron_is_null w _) eqn:?; simpl;
    [ destruct prompt; [destruct (confirm_ask w _) eqn:?; simpl|];
      destruct (torch w) eqn:?; simpl
    | ]
  | ].

Section Invariants.

Variable w : World.
Variable past : history.
Variable prompt : bool.
Variable max_allowed_attempts : Z.
Variable cuda : bool.

Local Abbreviation register_extrinsic :=
  (register_extrinsic w past prompt max_allowed_attempts cuda).
Local Abbreviation reachable_ind :=
  (RegisterFacts.reachable_ind w past prompt max_allowed_attempts cuda).

Lemma true_needs_evidence :
  forall fuel,
    let s := register_extrinsic fuel in
    ctl s = Returned true -> registration_evidence (hist s).
Proof.
  apply (reachable_ind
           (fun s => ctl s = Returned true -> registration_evidence (hist s))).
  - entry_cases w past prompt; intro H; try discriminate H; exact I.
  - intros s IH.
    register_cases s; simpl in *; intro H; try discriminate H;
      solve [exact I | assumption | exact (IH H)].
Qed.

Lemma false_has_a_cause :
  forall fuel,
    let s := register_extrinsic fuel in
    ctl s = Returned false ->
    (solver_calls (hist s) = 0%nat /\ submissions (hist s) = 0%nat)
    \/ (exists older, hist s = EvIsHotkeyRegistered false :: EvCreatePow None :: older)
    \/ (cuda = true /\ cuda_is_available w (hist s ++ past) = false).
Proof.
  apply (reachable_ind
           (fun s => ctl s = Returned false ->
              (solver_calls (hist s) = 0%nat /\ submissions (hist s) = 0%nat)
              \/ (exists older,
                    hist s = EvIsHotkeyRegistered false :: EvCreatePow None :: older)
              \/ (cuda = true /\ cuda_is_available w (hist s ++ past) = false))).
  - entry_cases w past prompt; intro H; try discriminate H;
      left; split; reflexivity.
  - intros s IH.
    register_cases s; simpl in *; intro H; try discriminate H.
    + right; right.
      apply andb_prop in Ecuda; destruct Ecuda as [-> Hn].
      apply negb_true_iff in Hn; split; [reflexivity|exact Hn].
    + right; left; eexists; reflexivity.
    + exact (IH H).
Qed.

Lemma false_not_after_submission :
  forall fuel,
    let s := register_extrinsic fuel in
    match ctl s with
    | Solve _ | Returned false =>
        forall success err_msg older, hist s <> EvPowRegister success err_msg :: older
    | _ => True
    end.
Proof.
  apply (reachable_ind
           (fun s => match ctl s with
                     | Solve _ | Returned false =>
                         forall success err_msg older,
                           hist s <> EvPowRegister success err_msg :: older
                     | _ => True
                     end)).
  - entry_cases w past prompt; try exact I; intros; discriminate.
  - intros s IH.
    register_cases s; simpl in *; try exact I; try exact IH; intros; discriminate.
Qed.

Lemma attempts_count_failed_solves :
  forall fuel,
    let s := register_extrinsic fuel in
    Z.of_nat (failed_solves (hist s)) <= Z.max 1 max_allowed_attempts
    /\ forall a, attempts_of (ctl s) = Some a ->
                 Z.of_nat (failed_solves (hist s)) = a - 1
                 /\ a <= Z.max 1 max_allowed_attempts.
Proof.
  apply (reachable_ind
           (fun s =>
              Z.of_nat (failed_solves (hist s)) <= Z.max 1 max_allowed_attempts
              /\ forall a, attempts_of (ctl s) = Some a ->
                           Z.of_nat (failed_solves (hist s)) = a - 1
                           /\ a <= Z.max 1 max_allowed_attempts)).
  - entry_cases w past prompt; unfold failed_solves, count; simpl;
      (split; [lia|]); intros a Ha; try discriminate Ha;
      injection Ha as <-; lia.
  - intros s [Hle Hat].
    register_cases s; simpl in *; unfold failed_solves, count in *; simpl in *;
      try (split; [exact Hle | exact Hat]);
      destruct (Hat _ eq_refl) as [Hn Ha];
      (split; [lia|]); intros a' Ha'; try discriminate Ha';
      injection Ha' as <-; lia.
Qed.

Lemma submissions_are_checked :
  forall fuel, checked_before_submit (hist (register_extrinsic fuel)).
Proof.
  apply (reachable_ind (fun s => checked_before_submit (hist s))).
  - entry_cases w past prompt; repeat split; discriminate.
  - intros s IH.
    register_cases s; simpl in *; try exact IH;
      repeat split; try discriminate; try exact IH;
      intros _; eexists; reflexivity.
Qed.

Lemma confirming_probe_invariant :
  forall fuel,
    let s := register_extrinsic fuel in
    existsb is_confirming_probe (tl (hist s)) = false
    /\ (existsb is_confirming_probe (hist s) = true -> ctl s = Returned true).
Proof.
  apply (reachable_ind
           (fun s => existsb is_confirming_probe (tl (hist s)) = false
                     /\ (existsb is_confirming_probe (hist s) = true ->
                         ctl s = Returned true))).
  - entry_cases w past prompt; split; try reflexivity; discriminate.
  - intros s [Htl Hhd].
    assert (Hrun : running s = true ->
                   existsb is_confirming_probe (hist s) = false).
    { intro R; destruct (existsb _ (hist s)); [|reflexivity].
      unfold running in R; rewrite (Hhd eq_refl) in R; discriminate. }
    register_cases s; simpl in *; try (split; assumption);
      specialize (Hrun eq_refl); rewrite ?Hrun;
      split; solve [reflexivity | discriminate | assumption].
Qed.

Lemma silent_rejection_invariant :
  forall fuel,
    let s := register_extrinsic fuel in
    (existsb is_silent_rejection (hist s) = true -> ctl s = Raised TypeError)
    /\ (forall e, ctl s = Raised e ->
                  exists older, hist s = EvPowRegister false None :: older).
Proof.
  apply (reachable_ind
           (fun s =>
              (existsb is_silent_rejection (hist s) = true -> ctl s = Raised TypeError)
              /\ (forall e, ctl s = Raised e ->
                            exists older, hist s = EvPowRegister false None :: older))).
  - entry_cases w past prompt; split; intros; discriminate.
  - intros s [Hin Hout].
    assert (Hrun : running s = true ->
                   existsb is_silent_rejection (hist s) = false).
    { intro R; destruct (existsb _ (hist s)); [|reflexivity].
      unfold running in R; rewrite (Hin eq_refl) in R; discriminate. }
    register_cases s; simpl in *; try (split; assumption);
      specialize (Hrun eq_refl); rewrite ?Hrun;
      (split; [intro H; solve [discriminate H | reflexivity]
              |intros e' He'; try discriminate He'; eexists; reflexivity]).
Qed.

End Invariants.

Lemma checked_suffix (newer older : history) :
  checked_before_submit (newer ++ older) -> checked_before_submit older.
Proof.
  induction newer as [|e newer IH]; simpl; [tauto|].
  intros [_ H]; exact (IH H).
Qed.

(** X1.  [register_extrinsic] fails fast: if the subnet does not exist, or
    the hotkey is unknown and either the operator declines the prompt or
    [torch] is missing, the call returns [False] without invoking the solver
    and without submitting anything; for a missing subnet the subnet query
    is the only call made. *)
Theorem register_fails_fast
    (w : World) (past : history) (prompt : bool) (max_allowed_attempts : Z)
    (cuda : bool) (fuel : nat) :
  subnet_exists w past = false
  \/ (neuron_is_null w (EvSubnetExists true :: past) = true
      /\ ((prompt = true
           /\ confirm_ask w (EvGetNeuron true :: EvSubnetExists true :: past) = false)
          \/ torch w = false)) ->
  let s := register_extrinsic w past prompt max_allowed_attempts cuda fuel in
  ctl s = Returned false
  /\ solver_calls (hist s) = 0%nat
  /\ submissions (hist s) = 0%nat
  /\ (subnet_exists w past = false -> hist s = [EvSubnetExists false]).
Proof.
  intros H s.
  assert (E : ctl (entry w past prompt) = Returned false
              /\ (subnet_exists w past = false ->
                  hist (entry w past prompt) = [EvSubnetExists false])).
  { revert H; entry_cases w past prompt; intro H;
      repeat match goal with
             | H : _ \/ _ |- _ => destruct H
             | H : _ /\ _ |- _ => destruct H
             end; try discriminate; try congruence; split; try reflexivity;
      intro; try discriminate; reflexivity. }
  destruct E as [Ec Eh].
  assert (Es : s = entry w past prompt).
  { unfold s, register_extrinsic; apply RegisterFacts.run_stopped.
    unfold running; rewrite Ec; reflexivity. }
  rewrite Es.
  destruct (RegisterFacts.entry_calls_nobody w past prompt) as [H1 H2].
  repeat split; assumption.
Qed.

Lemma register_fails_fast_witness :
  register_extrinsic no_subnet [] true 3 false 5
  = mkSt (Returned false) [EvSubnetExists false]
  /\ ctl (register_extrinsic declining [] true 3 false 5) = Returned false.
Proof.
  split.
  - destruct (register_fails_fast no_subnet [] true 3 false 5 (or_introl eq_refl))
      as [Hc [_ [_ Hh]]].
    destruct (register_extrinsic no_subnet [] true 3 false 5) as [c h];
      simpl in *; rewrite Hc, (Hh eq_refl); reflexivity.
  - apply (register_fails_fast declining [] true 3 false 5).
    right; split; [reflexivity|left; split; reflexivity].
Defined.

(** X2.  When CUDA is requested and no device is available, the call
    returns [False] at the top of the loop: the solver is not invoked and
    nothing is submitted. *)
Theorem register_without_cuda_device
    (w : World) (past : history) (prompt : bool) (max_allowed_attempts : Z)
    (fuel : nat) :
  ctl (entry w past prompt) = Solve 1 ->
  (forall h, cuda_is_available w h = false) ->
  let s := register_extrinsic w past prompt max_allowed_attempts true (S fuel) in
  ctl s = Returned false
  /\ solver_calls (hist s) = 0%nat
  /\ submissions (hist s) = 0%nat.
Proof.
  intros Hentry Hcuda s.
  assert (E : step w past max_allowed_attempts true (entry w past prompt)
              = mkSt (Returned false) (hist (entry w past prompt))).
  { destruct (entry w past prompt) as [c h]; simpl in Hentry; subst c.
    rewrite RegisterFacts.step_Solve; unfold solve.
    rewrite Hcuda; reflexivity. }
  assert (Es : s = mkSt (Returned false) (hist (entry w past prompt))).
  { unfold s, register_extrinsic.
    rewrite RegisterFacts.run_S, E.
    apply RegisterFacts.run_stopped; reflexivity. }
  rewrite Es; simpl.
  destruct (RegisterFacts.entry_calls_nobody w past prompt) as [H1 H2].
  repeat split; assumption.
Qed.

Lemma register_without_cuda_device_witness :
  ctl (register_extrinsic no_cuda [] false 3 true 1) = Returned false.
Proof.
  apply (register_without_cuda_device no_cuda [] false 3 0);
    [reflexivity | intro h; reflexivity].
Defined.

(** X3.  [True] is returned only on evidence of registration: the newest
    call is a neuron lookup that found the hotkey, a registration probe that
    confirmed it, or a rejected submission whose message contains
    "key is already registered". *)
Theorem register_true_only_on_evidence
    (w : World) (past : history) (prompt : bool) (max_allowed_attempts : Z)
    (cuda : bool) (fuel : nat) :
  let s := register_extrinsic w past prompt max_allowed_attempts cuda fuel in
  ctl s = Returned true -> registration_evidence (hist s).
Proof. apply true_needs_evidence. Qed.

Lemma register_true_only_on_evidence_witness :
  registration_evidence (hist (register_extrinsic ledger [] false 3 false 2))
  /\ registration_evidence (hist (register_extrinsic raced [] false 3 false 2)).
Proof.
  split.
  - apply (register_true_only_on_evidence ledger [] false 3 false 2); reflexivity.
  - apply (register_true_only_on_evidence raced [] false 3 false 2); reflexivity.
Defined.

(** X4.  [False] is returned for three reasons only: a precondition failed
    before any solver call or submission; or the newest two calls are a
    solver call that reported no solution and a probe that found the hotkey
    unregistered (the attempt accounting gave up); or CUDA was requested and
    is not available.  The newest call is never a submission: a rejected
    submission does not make the function return [False]. *)
Theorem register_false_has_a_cause
    (w : World) (past : history) (prompt : bool) (max_allowed_attempts : Z)
    (cuda : bool) (fuel : nat) :
  let s := register_extrinsic w past prompt max_allowed_attempts cuda fuel in
  ctl s = Returned false ->
  ((solver_calls (hist s) = 0%nat /\ submissions (hist s) = 0%nat)
   \/ (exists older, hist s = EvIsHotkeyRegistered false :: EvCreatePow None :: older)
   \/ (cuda = true /\ cuda_is_available w (hist s ++ past) = false))
  /\ (forall success err_msg older, hist s <> EvPowRegister success err_msg :: older).
Proof.
  intros s H; split.
  - apply false_has_a_cause; exact H.
  - pose proof (false_not_after_submission w past prompt max_allowed_attempts cuda fuel)
      as Hn.
    cbv zeta in Hn; fold s in Hn; rewrite H in Hn; exact Hn.
Qed.

Lemma register_false_has_a_cause_witness :
  exists older,
    hist (register_extrinsic no_solution [] false 3 false 3)
    = EvIsHotkeyRegistered false :: EvCreatePow None :: older.
Proof.
  destruct (register_false_has_a_cause no_solution [] false 3 false 3 eq_refl)
    as [[[H _]|[H|[H _]]] _]; [discriminate H | exact H | discriminate H].
Defined.

(** X5.  The local variable [attempts] counts the solver calls that
    reported no solution: while the loop runs there have been exactly
    [attempts - 1] of them, and a call never sees more than
    [max 1 max_allowed_attempts] of them.  Rejected submissions and stale
    solutions do not enter the count. *)
Theorem attempts_count_solver_failures
    (w : World) (past : history) (prompt : bool) (max_allowed_attempts : Z)
    (cuda : bool) (fuel : nat) :
  let s := register_extrinsic w past prompt max_allowed_attempts cuda fuel in
  Z.of_nat (failed_solves (hist s)) <= Z.max 1 max_allowed_attempts
  /\ forall a, attempts_of (ctl s) = Some a ->
               Z.of_nat (failed_solves (hist s)) = a - 1
               /\ a <= Z.max 1 max_allowed_attempts.
Proof. apply attempts_count_failed_solves. Qed.

Lemma attempts_count_solver_failures_witness :
  Z.of_nat (failed_solves (hist (register_extrinsic no_solution [] false 3 false 2)))
  = 3 - 1.
Proof.
  apply (proj2 (attempts_count_solver_failures no_solution [] false 3 false 2) 3).
  reflexivity.
Defined.

(** X6.  A solution is never submitted without a staleness check right
    before it: in the history of a call, every [do_pow_register] is
    immediately preceded by an [is_stale] that answered [False]. *)
Theorem register_submits_only_checked_solutions
    (w : World) (past : history) (prompt : bool) (max_allowed_attempts : Z)
    (cuda : bool) (fuel : nat) (newer older : history)
    (success : bool) (err_msg : option string) :
  hist (register_extrinsic w past prompt max_allowed_attempts cuda fuel)
  = newer ++ EvPowRegister success err_msg :: older ->
  exists older', older = EvIsStale false :: older'.
Proof.
  intro E.
  pose proof (submissions_are_checked w past prompt max_allowed_attempts cuda fuel) as H.
  rewrite E in H; apply checked_suffix in H.
  destruct H as [H _]; exact (H eq_refl).
Qed.

Lemma register_submits_only_checked_solutions_witness :
  exists older',
    [EvIsStale false; EvCreatePow (Some pow0); EvGetNeuron true; EvSubnetExists true]
    = EvIsStale false :: older'.
Proof.
  exact (register_submits_only_checked_solutions rejecting [] false 2 false 2 []
           [EvIsStale false; EvCreatePow (Some pow0); EvGetNeuron true;
            EvSubnetExists true]
           false (Some "generic error") eq_refl).
Defined.

(** X7.  A registration probe that confirms ends the call with [True],
    wherever it is made: after a solver call that reported no solution
    (line 156) as well as after an accepted submission (line 195).  The
    probe is the last call of the invocation. *)
Theorem confirming_probe_returns_true
    (w : World) (past : history) (prompt : bool) (max_allowed_attempts : Z)
    (cuda : bool) (fuel : nat) :
  let s := register_extrinsic w past prompt max_allowed_attempts cuda fuel in
  In (EvIsHotkeyRegistered true) (hist s) ->
  ctl s = Returned true
  /\ exists older, hist s = EvIsHotkeyRegistered true :: older.
Proof.
  intros s Hin.
  destruct (confirming_probe_invariant w past prompt max_allowed_attempts cuda fuel)
    as [Htl Hhd]; fold s in Htl, Hhd.
  assert (Hex : existsb is_confirming_probe (hist s) = true).
  { apply existsb_exists; exists (EvIsHotkeyRegistered true); split;
      [exact Hin | reflexivity]. }
  split; [exact (Hhd Hex)|].
  destruct (hist s) as [|e older]; [contradiction|].
  destruct Hin as [->|Hin]; [exists older; reflexivity|exfalso].
  simpl in Htl.
  assert (Hex' : existsb is_confirming_probe older = true).
  { apply existsb_exists; exists (EvIsHotkeyRegistered true); split;
      [exact Hin | reflexivity]. }
  rewrite Hex' in Htl; discriminate.
Qed.

Lemma confirming_probe_returns_true_witness :
  ctl (register_extrinsic late_registration [] false 3 false 2) = Returned true
  /\ solver_calls (hist (register_extrinsic late_registration [] false 3 false 2))
     = 2%nat
  /\ submissions (hist (register_extrinsic late_registration [] false 3 false 2))
     = 0%nat.
Proof.
  split; [|split; reflexivity].
  apply (confirming_probe_returns_true late_registration [] false 3 false 2).
  left; reflexivity.
Defined.

(** X8.  The function raises (a [TypeError]) exactly when a submission
    came back rejected without an error message; every other answer of the
    collaborators is resolved into a boolean or keeps the loop running. *)
Theorem register_raises_iff_silent_rejection
    (w : World) (past : history) (prompt : bool) (max_allowed_attempts : Z)
    (cuda : bool) (fuel : nat) :
  let s := register_extrinsic w past prompt max_allowed_attempts cuda fuel in
  (exists e, ctl s = Raised e) <-> In (EvPowRegister false None) (hist s).
Proof.
  intro s.
  destruct (silent_rejection_invariant w past prompt max_allowed_attempts cuda fuel)
    as [Hin Hout]; fold s in Hin, Hout.
  split.
  - intros [e He]; destruct (Hout e He) as [older ->]; left; reflexivity.
  - intro H; exists TypeError; apply Hin.
    apply existsb_exists; exists (EvPowRegister false None); split;
      [exact H | reflexivity].
Qed.

Lemma register_raises_iff_silent_rejection_witness :
  In (EvPowRegister false None)
     (hist (register_extrinsic silent_rejection [] false 3 false 4)).
Proof.
  apply (proj1 (register_raises_iff_silent_rejection silent_rejection [] false 3 false 4)).
  exists TypeError; reflexivity.
Defined.

(** X9.  When the solver never finds a solution and the hotkey never
    shows up as registered, the call gives up after exactly
    [max 1 max_allowed_attempts] solver invocations and returns [False]
    without having submitted anything. *)
Theorem register_gives_up_without_solution
    (w : World) (past : history) (prompt : bool) (max_allowed_attempts : Z)
    (cuda : bool) :
  (cuda = true -> forall h, cuda_is_available w h = true) ->
  (forall h, create_pow w h = None) ->
  (forall h, is_hotkey_registered w h = false) ->
  ctl (entry w past prompt) = Solve 1 ->
  let n := Z.to_nat (Z.max 1 max_allowed_attempts) in
  let s := register_extrinsic w past prompt max_allowed_attempts cuda n in
  ctl s = Returned false
  /\ solver_calls (hist s) = n
  /\ submissions (hist s) = 0%nat.
Proof.
  intros Hcuda Hpow Hreg Hentry.
  exact (RegisterFacts.no_solution_exhausts_ceiling
           w past prompt max_allowed_attempts cuda Hcuda Hpow Hreg Hentry).
Qed.

Lemma register_gives_up_without_solution_witness :
  let s := register_extrinsic no_solution [] false 5 false 5 in
  ctl s = Returned false
  /\ solver_calls (hist s) = 5%nat
  /\ submissions (hist s) = 0%nat.
Proof.
  apply (register_gives_up_without_solution no_solution [] false 5 false).
  - intros _ h; reflexivity.
  - intro h; reflexivity.
  - intro h; reflexivity.
  - reflexivity.
Defined.

End RegisterHistory.

(** * Further properties of [burned_register_extrinsic] *)

Module BurnedHistory.

Import Burned BurnedFacts HistorySpec Scenarios MoreScenarios.

Ltac split_in :=
  repeat match goal with
         | H : In _ _ |- _ => simpl in H
         | H : _ \/ _ |- _ => destruct H
         | H : False |- _ => contradiction
         | H : @eq Event _ _ |- _ => discriminate H
         end.

(** X10.  [burned_register_extrinsic] returns [True] exactly when the chain
    itself said the hotkey is registered: the neuron lookup found it before
    anything was paid, or the probe after the submission confirmed it. *)
Theorem burned_true_iff_registered
    (w : World) (past : history) (prompt : bool) :
  let o := burned_register_extrinsic w past prompt in
  result o = true
  <-> In (EvGetNeuron false) (hist o) \/ In (EvIsHotkeyRegistered true) (hist o).
Proof.
  burned_cases w past prompt; split; intro H;
    try discriminate H; try reflexivity; try (simpl; tauto);
    exfalso; split_in.
Qed.

(** X11.  The call submits nothing exactly when the subnet is missing,
    the hotkey is already registered or the operator declines; in every
    other case it submits once, after having read the balance and the fee. *)
Theorem burned_submits_unless_stopped
    (w : World) (past : history) (prompt : bool) :
  let o := burned_register_extrinsic w past prompt in
  (submissions (hist o) = 0%nat
   <-> In (EvSubnetExists false) (hist o)
       \/ In (EvGetNeuron false) (hist o)
       \/ In (EvConfirm false) (hist o))
  /\ (submissions (hist o) = 1%nat ->
      exists success err_msg newer older,
        hist o = newer ++ EvBurnedRegister success err_msg :: older
        /\ In EvRecycle older /\ In EvGetBalance older).
Proof.
  burned_cases w past prompt; unfold submissions, count; simpl; split;
    try (split; intro H; try discriminate H; try reflexivity; try tauto;
         exfalso; split_in; fail);
    intro H; try discriminate H.
  - exists true, o, [EvIsHotkeyRegistered true; EvGetBalance; EvCurrentBlock].
    eexists; split; [reflexivity|simpl; tauto].
  - exists true, o, [EvIsHotkeyRegistered false; EvGetBalance; EvCurrentBlock].
    eexists; split; [reflexivity|simpl; tauto].
  - exists false, o, []; eexists; split; [reflexivity|simpl; tauto].
  - exists true, o, [EvIsHotkeyRegistered true; EvGetBalance; EvCurrentBlock].
    eexists; split; [reflexivity|simpl; tauto].
  - exists true, o, [EvIsHotkeyRegistered false; EvGetBalance; EvCurrentBlock].
    eexists; split; [reflexivity|simpl; tauto].
  - exists false, o, []; eexists; split; [reflexivity|simpl; tauto].
Qed.

Lemma burned_true_iff_registered_witness :
  result (burned_register_extrinsic ledger [] false) = true
  /\ ~ In (EvIsHotkeyRegistered true) (hist (burned_register_extrinsic expiring [] false)).
Proof.
  split.
  - apply (proj2 (burned_true_iff_registered ledger [] false)).
    right; left; reflexivity.
  - intro H.
    assert (E : result (burned_register_extrinsic expiring [] false) = true)
      by (apply (proj2 (burned_true_iff_registered expiring [] false)); right; exact H).
    discriminate E.
Defined.

Lemma burned_submits_unless_stopped_witness :
  submissions (hist (burned_register_extrinsic declining [] true)) = 0%nat
  /\ exists success err_msg newer older,
       hist (burned_register_extrinsic rejecting [] false)
       = newer ++ EvBurnedRegister success err_msg :: older
       /\ In EvRecycle older /\ In EvGetBalance older.
Proof.
  split.
  - apply (proj2 (proj1 (burned_submits_unless_stopped declining [] true))).
    right; right; left; reflexivity.
  - apply (proj2 (burned_submits_unless_stopped rejecting [] false)); reflexivity.
Defined.

End BurnedHistory.

(** * Further properties of [run_faucet_extrinsic] *)

Module FaucetHistory.

Import Faucet FaucetSpec HistorySpec Scenarios MoreScenarios.

(** Split a goal about [step w past mx cuda s] along the branches of the
    source, in program order. *)
Ltac faucet_cases s :=
  let h := fresh "h" in
  let a := fresh "a" in
  let su := fresh "su" in
  let p := fresh "p" in
  destruct s as [[a su [p|]|[? ?]] h];
  unfold Faucet.step, solve, submit, interruptible; simpl ctl; simpl hist; cbv zeta;
  repeat match goal with
         | |- context [if negb ?c then _ else _] => destruct c eqn:?; simpl negb
         | |- context [if ?c then _ else _] => destruct c eqn:?
         end.

Ltac faucet_entry_cases w past prompt :=
  unfold Faucet.entry, after_prompt;
  destruct prompt; [destruct (confirm_ask w past) eqn:?; simpl|];
  destruct (torch w) eqn:?; simpl.

Ltac eqb_to_prop :=
  repeat match goal with
         | H : (_ =? _) = true |- _ => apply Z.eqb_eq in H
         | H : (_ =? _) = false |- _ => apply Z.eqb_neq in H
         end.

Section Invariants.

Variable w : World.
Variable past : history.
Variable prompt : bool.
Variable max_allowed_attempts : Z.
Variable cuda : bool.

Local Abbreviation step := (step w past max_allowed_attempts cuda).
Local Abbreviation run := (run w past max_allowed_attempts cuda).
Local Abbreviation run_faucet_extrinsic :=
  (run_faucet_extrinsic w past prompt max_allowed_attempts cuda).
Local Abbreviation reachable_ind :=
  (FaucetFacts.faucet_reachable_ind w past prompt max_allowed_attempts cuda).

Lemma faucet_run_returned (n : nat) (r : bool * string) (h : history) :
  run n (mkSt (Returned r) h) = mkSt (Returned r) h.
Proof. induction n as [|n IH]; [reflexivity|exact IH]. Qed.

Lemma interrupt_invariant :
  forall fuel,
    let s := run_faucet_extrinsic fuel in
    existsb is_interrupt (tl (hist s)) = false
    /\ (existsb is_interrupt (hist s) = true -> ctl s = Returned (true, "Done")).
Proof.
  apply (reachable_ind
           (fun s => existsb is_interrupt (tl (hist s)) = false
                     /\ (existsb is_interrupt (hist s) = true ->
                         ctl s = Returned (true, "Done")))).
  - faucet_entry_cases w past prompt; split; try reflexivity; discriminate.
  - intros s [Htl Hhd].
    assert (Hrun : (exists a su pw, ctl s = Loop a su pw) ->
                   existsb is_interrupt (hist s) = false).
    { intros [a [su [pw R]]]; destruct (existsb _ (hist s)); [|reflexivity].
      rewrite (Hhd eq_refl) in R; discriminate. }
    faucet_cases s; simpl in *; try (split; assumption);
      rewrite ?(Hrun (ex_intro _ _ (ex_intro _ _ (ex_intro _ _ eq_refl))));
      split; solve [reflexivity | discriminate | assumption].
Qed.

Lemma faucet_submissions_are_checked :
  forall fuel, checked_before_submit (hist (run_faucet_extrinsic fuel)).
Proof.
  apply (reachable_ind (fun s => checked_before_submit (hist s))).
  - faucet_entry_cases w past prompt; repeat split; discriminate.
  - intros s IH.
    faucet_cases s; simpl in *; try exact IH;
      repeat split; try discriminate; try exact IH;
      intros _; eexists; reflexivity.
Qed.

Lemma low_ceiling_invariant :
  max_allowed_attempts < 1 ->
  forall fuel,
    match ctl (run_faucet_extrinsic fuel) with
    | Loop a _ _ => 1 <= a
    | Returned r => r <> (false, max_attempts_msg max_allowed_attempts)
    end.
Proof.
  intro Hmax.
  apply (reachable_ind
           (fun s => match ctl s with
                     | Loop a _ _ => 1 <= a
                     | Returned r => r <> (false, max_attempts_msg max_allowed_attempts)
                     end)).
  - faucet_entry_cases w past prompt; try lia;
      unfold max_attempts_msg; simpl; discriminate.
  - intros s.
    faucet_cases s; simpl; try tauto; intro Ha; eqb_to_prop; try lia;
      unfold max_attempts_msg; simpl; discriminate.
Qed.

Lemma return_values :
  forall fuel r,
    ctl (run_faucet_extrinsic fuel) = Returned r ->
    In r [ (false, ""); (false, "Requires torch"); (false, "CUDA is not available.");
           (false, max_attempts_msg max_allowed_attempts);
           (true, "Done"); (true, "Max successes reached: 3") ].
Proof.
  intro fuel.
  apply (reachable_ind
           (fun s => forall r, ctl s = Returned r ->
              In r [ (false, ""); (false, "Requires torch");
                     (false, "CUDA is not available.");
                     (false, max_attempts_msg max_allowed_attempts);
                     (true, "Done"); (true, "Max successes reached: 3") ])).
  - faucet_entry_cases w past prompt; intros r H; try discriminate H;
      injection H as <-; simpl; tauto.
  - intros s IH.
    faucet_cases s; simpl in *; intros r H; try discriminate H;
      try (exact (IH r H)); injection H as <-; simpl; tauto.
Qed.

Lemma submissions_split :
  forall fuel,
    let s := run_faucet_extrinsic fuel in
    submissions (hist s) = (faucet_successes (hist s) + faucet_failures (hist s))%nat.
Proof.
  apply (reachable_ind
           (fun s => submissions (hist s)
                     = (faucet_successes (hist s) + faucet_failures (hist s))%nat)).
  - faucet_entry_cases w past prompt; reflexivity.
  - intros s.
    faucet_cases s; simpl;
      unfold submissions, faucet_successes, faucet_failures, count; simpl;
      intro IH; lia.
Qed.

End Invariants.

(** X12.  Ctrl-C during any blocking call of the loop ends the faucet
    with [(True, "Done")]: the interrupt is the last event of the call, so
    nothing is solved or submitted after it. *)
Theorem faucet_interrupt_returns_done
    (w : World) (past : history) (prompt : bool) (max_allowed_attempts : Z)
    (cuda : bool) (fuel : nat) :
  let s := run_faucet_extrinsic w past prompt max_allowed_attempts cuda fuel in
  In EvKeyboardInterrupt (hist s) ->
  ctl s = Returned (true, "Done")
  /\ exists older, hist s = EvKeyboardInterrupt :: older.
Proof.
  intros s Hin.
  destruct (interrupt_invariant w past prompt max_allowed_attempts cuda fuel)
    as [Htl Hhd]; fold s in Htl, Hhd.
  assert (Hex : existsb is_interrupt (hist s) = true).
  { apply existsb_exists; exists EvKeyboardInterrupt; split; [exact Hin|reflexivity]. }
  split; [exact (Hhd Hex)|].
  destruct (hist s) as [|e older]; [contradiction|].
  destruct Hin as [->|Hin]; [exists older; reflexivity|exfalso].
  simpl in Htl.
  assert (Hex' : existsb is_interrupt older = true).
  { apply existsb_exists; exists EvKeyboardInterrupt; split; [exact Hin|reflexivity]. }
  rewrite Hex' in Htl; discriminate.
Qed.

Lemma faucet_interrupt_returns_done_witness :
  let s := run_faucet_extrinsic interrupted [] false 3 false 5 in
  ctl s = Returned (true, "Done") /\ faucet_successes (hist s) = 1%nat.
Proof.
  split; [|reflexivity].
  apply (faucet_interrupt_returns_done interrupted [] false 3 false 5).
  left; reflexivity.
Defined.

(** X13.  The faucet never submits a solution without a staleness check
    right before it: every faucet submission in the history of a call is
    immediately preceded by an [is_stale] that answered [False]. *)
Theorem faucet_submits_only_checked_solutions
    (w : World) (past : history) (prompt : bool) (max_allowed_attempts : Z)
    (cuda : bool) (fuel : nat) (newer older : history) (is_success : bool) :
  hist (run_faucet_extrinsic w past prompt max_allowed_attempts cuda fuel)
  = newer ++ EvFaucet is_success :: older ->
  exists older', older = EvIsStale false :: older'.
Proof.
  intro E.
  pose proof (faucet_submissions_are_checked w past prompt max_allowed_attempts cuda fuel)
    as H.
  rewrite E in H; apply RegisterHistory.checked_suffix in H.
  destruct H as [H _]; exact (H eq_refl).
Qed.

Lemma faucet_submits_only_checked_solutions_witness :
  exists older',
    [EvIsStale false; EvCreatePow (Some pow0); EvGetBalance] = EvIsStale false :: older'.
Proof.
  exact (faucet_submits_only_checked_solutions alternating [] false 2 false 2 []
           [EvIsStale false; EvCreatePow (Some pow0); EvGetBalance] false eq_refl).
Defined.

(** X14.  With [max_allowed_attempts] below 1 the attempts ceiling never
    fires: [attempts] starts at 1 and only grows, so the equality test of
    line 443 never holds and the faucet never returns the max-attempts
    failure, however many submissions fail. *)
Theorem faucet_low_ceiling_never_fires
    (w : World) (past : history) (prompt : bool) (max_allowed_attempts : Z)
    (cuda : bool) (fuel : nat) :
  max_allowed_attempts < 1 ->
  ctl (run_faucet_extrinsic w past prompt max_allowed_attempts cuda fuel)
  <> Returned (false, max_attempts_msg max_allowed_attempts).
Proof.
  intros Hmax H.
  pose proof (low_ceiling_invariant w past prompt max_allowed_attempts cuda Hmax fuel)
    as Inv.
  rewrite H in Inv; exact (Inv eq_refl).
Qed.

Lemma faucet_low_ceiling_never_fires_witness :
  ctl (run_faucet_extrinsic rejecting [] false 0 false 40)
  <> Returned (false, max_attempts_msg 0)
  /\ faucet_failures (hist (run_faucet_extrinsic rejecting [] false 0 false 40))
     = 20%nat.
Proof.
  split; [|reflexivity].
  apply (faucet_low_ceiling_never_fires rejecting [] false 0 false 40); lia.
Defined.

(** X15.  In the faucet a solver call that reports no solution is not
    counted at all: when the solver never finds a solution (and nobody
    interrupts), the loop calls it again and again with both counters at
    their initial value, and never returns. *)
Theorem faucet_retries_solver_forever
    (w : World) (past : history) (prompt : bool) (max_allowed_attempts : Z)
    (cuda : bool) (fuel : nat) :
  ctl (entry w past prompt) = Loop 1 1 None ->
  (cuda = true -> forall h, cuda_is_available w h = true) ->
  (forall h, create_pow w h = None) ->
  (forall h, interrupt w h = false) ->
  let s := run_faucet_extrinsic w past prompt max_allowed_attempts cuda fuel in
  ctl s = Loop 1 1 None
  /\ solver_calls (hist s) = fuel
  /\ submissions (hist s) = 0%nat.
Proof.
  intros Hentry Hcuda Hpow Hquiet s; unfold s; clear s.
  induction fuel as [|n IH].
  - unfold run_faucet_extrinsic; simpl; split; [exact Hentry|].
    revert Hentry; faucet_entry_cases w past prompt; intro H;
      try discriminate H; split; reflexivity.
  - unfold run_faucet_extrinsic in *.
    rewrite FaucetFacts.faucet_run_step.
    destruct (run w past max_allowed_attempts cuda n (entry w past prompt)) as [c h].
    simpl in IH; destruct IH as [-> [Hs Hsub]].
    unfold step, solve, interruptible; simpl ctl; simpl hist.
    assert (Hc : cuda && negb (cuda_is_available w (h ++ past)) = false).
    { destruct cuda; [rewrite Hcuda by reflexivity|]; reflexivity. }
    rewrite Hc, Hquiet, Hpow; simpl.
    split; [reflexivity|]; split.
    + unfold solver_calls, count in *; simpl; rewrite Hs; reflexivity.
    + exact Hsub.
Qed.

Lemma faucet_retries_solver_forever_witness :
  let s := run_faucet_extrinsic no_solution [] false 3 false 25 in
  ctl s = Loop 1 1 None /\ solver_calls (hist s) = 25%nat /\ submissions (hist s) = 0%nat.
Proof.
  apply (faucet_retries_solver_forever no_solution [] false 3 false 25).
  - reflexivity.
  - intros _ h; reflexivity.
  - intro h; reflexivity.
  - intro h; reflexivity.
Defined.

(** X16.  Whatever the collaborators answer, the pair returned by the
    faucet is one of six: [(False, "")] (prompt declined),
    [(False, "Requires torch")], [(False, "CUDA is not available.")],
    [(False, "Max attempts reached: N")], [(True, "Done")] and
    [(True, "Max successes reached: 3")]. *)
Theorem faucet_return_values
    (w : World) (past : history) (prompt : bool) (max_allowed_attempts : Z)
    (cuda : bool) (fuel : nat) (r : bool * string) :
  ctl (run_faucet_extrinsic w past prompt max_allowed_attempts cuda fuel) = Returned r ->
  In r [ (false, ""); (false, "Requires torch"); (false, "CUDA is not available.");
         (false, max_attempts_msg max_allowed_attempts);
         (true, "Done"); (true, "Max successes reached: 3") ].
Proof. apply return_values. Qed.

Lemma faucet_return_values_witness :
  In (false, "Max attempts reached: 2")
     [ (false, ""); (false, "Requires torch"); (false, "CUDA is not available.");
       (false, max_attempts_msg 2);
       (true, "Done"); (true, "Max successes reached: 3") ].
Proof.
  exact (faucet_return_values alternating [] false 2 false 6
           (false, "Max attempts reached: 2") eq_refl).
Defined.

(** X17.  With a ceiling of at least 1, a faucet call makes at most
    [max_allowed_attempts + 2] submissions: the failures are bounded by the
    ceiling, the successes by 3, and the call ends as soon as either bound
    is reached. *)
Theorem faucet_submissions_bounded
    (w : World) (past : history) (prompt : bool) (max_allowed_attempts : Z)
    (cuda : bool) (fuel : nat) :
  1 <= max_allowed_attempts ->
  Z.of_nat (submissions
              (hist (run_faucet_extrinsic w past prompt max_allowed_attempts cuda fuel)))
  <= max_allowed_attempts + 2.
Proof.
  intro Hmax.
  pose proof (submissions_split w past prompt max_allowed_attempts cuda fuel) as Hsplit.
  pose proof (FaucetFacts.successes_invariant_holds
                w past prompt max_allowed_attempts cuda fuel) as Hs.
  pose proof (FaucetFacts.failures_invariant_holds
                w past prompt max_allowed_attempts cuda Hmax fuel) as Hf.
  pose proof (interrupt_invariant w past prompt max_allowed_attempts cuda fuel)
    as [_ Hd].
  cbv zeta in Hsplit; rewrite Hsplit; clear Hsplit.
  unfold successes_invariant, failures_invariant in *.
  set (s := run_faucet_extrinsic w past prompt max_allowed_attempts cuda fuel) in *.
  destruct (ctl s) as [a su pw|r] eqn:Ec.
  - lia.
  - destruct Hs as [Hs3 Hsr], Hf as [Hfm Hfr].
    destruct (Nat.eq_dec (faucet_successes (hist s)) 3) as [E3|N3]; [|lia].
    destruct (Z.eq_dec (Z.of_nat (faucet_failures (hist s))) max_allowed_attempts)
      as [Em|Nm]; [exfalso|lia].
    apply Hfr in Em; subst r.
    destruct (Hsr E3) as [H|[older [Hh Hi]]]; [discriminate H|].
    rewrite Hh in Hd; simpl in Hd.
    specialize (Hd eq_refl); discriminate Hd.
Qed.

Lemma faucet_submissions_bounded_witness :
  Z.of_nat (submissions (hist (run_faucet_extrinsic alternating [] false 2 false 6)))
  <= 2 + 2.
Proof.
  apply (faucet_submissions_bounded alternating [] false 2 false 6); lia.
Defined.

(** X18.  The faucet's early exits.  A declined prompt returns
    [(False, "")] after the prompt alone; a missing [torch] returns
    [(False, "Requires torch")] before the balance is read; a missing CUDA
    device, when CUDA is requested, returns
    [(False, "CUDA is not available.")] at the first pass through the loop.
    In none of the three cases is the solver invoked or anything
    submitted. *)
Theorem faucet_early_exits
    (w : World) (past : history) (max_allowed_attempts : Z) (fuel : nat) :
  (forall cuda,
     confirm_ask w past = false ->
     run_faucet_extrinsic w past true max_allowed_attempts cuda fuel
     = mkSt (Returned (false, "")) [EvConfirm false])
  /\ (forall prompt cuda,
        (prompt = true -> confirm_ask w past = true) ->
        torch w = false ->
        let s := run_faucet_extrinsic w past prompt max_allowed_attempts cuda fuel in
        ctl s = Returned (false, "Requires torch")
        /\ count is_balance_read (hist s) = 0%nat
        /\ solver_calls (hist s) = 0%nat
        /\ submissions (hist s) = 0%nat)
  /\ (forall prompt,
        ctl (entry w past prompt) = Loop 1 1 None ->
        (forall h, cuda_is_available w h = false) ->
        let s := run_faucet_extrinsic w past prompt max_allowed_attempts true (S fuel) in
        ctl s = Returned (false, "CUDA is not available.")
        /\ solver_calls (hist s) = 0%nat
        /\ submissions (hist s) = 0%nat).
Proof.
  split; [|split].
  - intros cuda Hc.
    unfold run_faucet_extrinsic, entry; rewrite Hc; simpl.
    apply faucet_run_returned.
  - intros prompt cuda Hc Ht s; unfold s, run_faucet_extrinsic; clear s.
    unfold entry, after_prompt; rewrite Ht; simpl.
    destruct prompt; [rewrite (Hc eq_refl); simpl|];
      rewrite faucet_run_returned; repeat split; reflexivity.
  - intros prompt Hentry Hcuda s; unfold s, run_faucet_extrinsic; clear s.
    assert (Hcalls : solver_calls (hist (entry w past prompt)) = 0%nat
                     /\ submissions (hist (entry w past prompt)) = 0%nat).
    { clear Hentry; faucet_entry_cases w past prompt; split; reflexivity. }
    destruct (entry w past prompt) as [c h]; simpl in Hentry, Hcalls; subst c.
    change (run w past max_allowed_attempts true (S fuel) (mkSt (Loop 1 1 None) h))
      with (run w past max_allowed_attempts true fuel
              (step w past max_allowed_attempts true (mkSt (Loop 1 1 None) h))).
    unfold step, solve; simpl ctl; simpl hist; rewrite Hcuda; simpl.
    rewrite faucet_run_returned; simpl.
    destruct Hcalls; repeat split; assumption.
Qed.

Lemma faucet_early_exits_witness :
  run_faucet_extrinsic declining [] true 3 false 7
  = mkSt (Returned (false, "")) [EvConfirm false]
  /\ ctl (run_faucet_extrinsic no_cuda [] false 3 true 1)
     = Returned (false, "CUDA is not available.").
Proof.
  destruct (faucet_early_exits declining [] 3 7) as [H1 _].
  destruct (faucet_early_exits no_cuda [] 3 0) as [_ [_ H3]].
  split.
  - apply H1; reflexivity.
  - apply (H3 false); [reflexivity | intro h; reflexivity].
Defined.

End FaucetHistory.

(** * Properties of [swap_hotkey_extrinsic] *)

Module SwapFacts.

Import Swap MoreScenarios.

(** X19.  [swap_hotkey_extrinsic] reports the chain's verdict as it is:
    it returns [True] exactly when it submitted the swap and the success flag
    came back set, with no later call to confirm it.  It submits at most
    once; a declined prompt submits nothing; a rejection without an error
    message is an ordinary failure. *)
Theorem swap_reports_flag
    (c : Chain) (past : list SwapEvent) (prompt : bool) :
  let o := swap_hotkey_extrinsic c past prompt in
  (result o = true <-> exists older err_msg, hist o = EvSwapHotkey true err_msg :: older)
  /\ (swap_submissions (hist o) <= 1)%nat
  /\ (swap_submissions (hist o) = 0%nat <-> hist o = [EvSwapConfirm false])
  /\ (forall err_msg, In (EvSwapHotkey false err_msg) (hist o) -> result o = false).
Proof.
  unfold swap_hotkey_extrinsic, swap.
  destruct prompt; [destruct (swap_confirm_ask c past); simpl|];
    try (destruct (do_swap_hotkey c _) as [[|] m]; simpl);
    unfold swap_submissions; simpl;
    (split; [split; [intro H; try discriminate H; do 2 eexists; reflexivity
                    |intros [older [m' H]]; try discriminate H; reflexivity]|]);
    (split; [lia|]);
    (split; [split; intro H; try discriminate H; reflexivity|]);
    intros m' H; try reflexivity;
    repeat (destruct H as [H|H]; try discriminate H); contradiction.
Qed.

Lemma swap_reports_flag_witness :
  result (swap_hotkey_extrinsic swap_accepting [] true) = true
  /\ result (swap_hotkey_extrinsic swap_refusing [] false) = false
  /\ hist (swap_hotkey_extrinsic swap_declining [] true) = [EvSwapConfirm false].
Proof.
  split; [|split].
  - apply (proj1 (swap_reports_flag swap_accepting [] true)).
    do 2 eexists; reflexivity.
  - apply (proj2 (proj2 (proj2 (swap_reports_flag swap_refusing [] false))) None).
    left; reflexivity.
  - apply (proj1 (proj2 (proj2 (swap_reports_flag swap_declining [] true)))).
    reflexivity.
Defined.

End SwapFacts.
